(** * pandarallel: the parallel execution engine of [pandarallel.py]

    A shallow embedding of [src/pandarallel/pandarallel.py] and the
    properties of its specification.  Python exceptions are values of
    [exn] carried by the [result] monad; the temporary files, the
    message queue and the display are explicit state. *)

From stdpp Require Import base numbers list strings gmap pretty sorting.

Open Scope string_scope.
Open Scope list_scope.

(** ** Python results *)

Module Py.

Inductive exn :=
| KeyError (what : string)
| SystemError (what : string)
| ZeroDivisionError
| UnboundLocalError (var : string)
| IndexError
| TypeError (what : string)
| ValueError (what : string)
| PicklingError
| EOFError
| FileNotFoundError (path : string)
| UserError (tag : nat).

Inductive result (A : Type) :=
| Ok (a : A)
| Raise (e : exn).
Arguments Ok {A} a.
Arguments Raise {A} e.

#[global] Instance result_ret : MRet result := λ A a, Ok a.
#[global] Instance result_bind : MBind result := λ A B f r,
  match r with
  | Ok a => f a
  | Raise e => Raise e
  end.

Definition is_ok {A} (r : result A) : bool :=
  match r with Ok _ => true | Raise _ => false end.

(** [a % b] on Python integers: the sign follows the divisor, a zero
    divisor raises. *)
Definition py_mod (a b : Z) : result Z :=
  if decide (b = 0)%Z then Raise ZeroDivisionError else Ok (a `mod` b)%Z.

(** [a // b] on Python integers. *)
Definition py_floordiv (a b : Z) : result Z :=
  if decide (b = 0)%Z then Raise ZeroDivisionError else Ok (a `div` b)%Z.

(** [l[i] = v] on a list, for an index that is not negative. *)
Definition list_setitem {A} (l : list A) (i : nat) (v : A) : result (list A) :=
  if decide (i < length l) then Ok (<[i := v]> l) else Raise IndexError.

(** [l[i]] on a list, for an index that is not negative. *)
Definition list_getitem {A} (l : list A) (i : nat) : result A :=
  match l !! i with
  | Some x => Ok x
  | None => Raise IndexError
  end.

(** Truth value of a Python integer ([False] is the integer 0). *)
Definition truthy (z : Z) : bool := negb (z =? 0)%Z.

(** [all(l)] *)
Definition all (l : list Z) : bool := forallb truthy l.

End Py.
Import Py.

(** ** Module constants (lines 23-30) *)

Definition PREFIX : string := "pandarallel_".
Definition PREFIX_INPUT : string := PREFIX +:+ "input_".
Definition PREFIX_OUTPUT : string := PREFIX +:+ "output_".
Definition SUFFIX : string := ".pickle".
Definition MEMORY_FS_ROOT : string := "/dev/shm".

Definition INPUT_FILE_READ : Z := 0.
Definition PROGRESSION : Z := 1.
Definition VALUE : Z := 2.
Definition ERROR : Z := 3.

(** ** Messages on the progress queue

    A message is the tuple [(message_type, message)]; its second
    component is a worker (or file) index, or the pair
    [(worker_index, iteration)] of a progress tick. *)

Inductive payload :=
| Index (i : nat)
| Tick (worker_index : nat) (iteration : Z).

Definition message : Type := Z * payload.

#[global] Instance payload_eq_dec : EqDecision payload.
Proof. solve_decision. Defined.

(** ** Temporary files

    [NamedTemporaryFile] gives a handle on a new file whose name is
    [dir/prefix<token>suffix]; the token is new at each call.  The
    files that exist are the keys of [files]; closing a handle removes
    its file. *)

Section TempFiles.
Context {Content : Type}.

Record tmpfile := { name : string }.

Record world := {
  next_token : nat;
  files : gmap string (option Content);
}.

Definition temp_name (dir pre suf : string) (token : nat) : string :=
  dir +:+ "/" +:+ pre +:+ pretty token +:+ suf.

Definition NamedTemporaryFile (pre suf dir : string) (w : world)
  : tmpfile * world :=
  let n := temp_name dir pre suf (next_token w) in
  ({| name := n |},
   {| next_token := S (next_token w); files := <[n := None]> (files w) |}).

Definition close (f : tmpfile) (w : world) : world :=
  {| next_token := next_token w; files := delete (name f) (files w) |}.

(** [create_temp_files] (lines 209-213) *)
Fixpoint create_temp_files (nb_files : nat) (w : world)
  : list tmpfile * world :=
  match nb_files with
  | O => ([], w)
  | S n =>
      let '(f, w1) :=
        NamedTemporaryFile PREFIX_INPUT SUFFIX MEMORY_FS_ROOT w in
      let '(fs, w2) := create_temp_files n w1 in
      (f :: fs, w2)
  end.

End TempFiles.
Arguments world : clear implicits.

(** ** Stateful computations that may raise

    [io S A] threads a state of type [S]; the state survives an
    exception, as the files and the queue do in the program. *)

Definition io (S A : Type) : Type := S → result A * S.

#[global] Instance io_ret {S} : MRet (io S) := λ A a s, (Ok a, s).
#[global] Instance io_bind {S} : MBind (io S) := λ A B f m s,
  match m s with
  | (Ok a, s1) => f a s1
  | (Raise e, s1) => (Raise e, s1)
  end.

Definition io_raise {S A} (e : exn) : io S A := λ s, (Raise e, s).
Definition io_lift {S A} (r : result A) : io S A := λ s, (r, s).
Definition io_modify {S} (f : S → S) : io S () := λ s, (Ok (), f s).

(** [try: body finally: cleanup] *)
Definition try_finally {S A} (body : io S A) (cleanup : S → S) : io S A :=
  λ s, let '(r, s1) := body s in (r, cleanup s1).

(** [[f(x) for x in l]] *)
Fixpoint io_map {S A B} (f : A → io S B) (l : list A) : io S (list B) :=
  match l with
  | [] => mret []
  | x :: l' => y ← f x; ys ← io_map f l'; mret (y :: ys)
  end.

(** ** Progress injection (lines 216-237)

    The instrumented function reads [pandarallel_counter] and
    [pandarallel_queue] in its global namespace [context]. *)

Record context := {
  pandarallel_counter : Z;
  pandarallel_queue : list message;
}.

(** [queue.put] and [queue.put_nowait] on the queue of
    [Manager().Queue()], which has no size limit. *)
Definition queue_put (m : message) : io context () :=
  io_modify (λ c, {| pandarallel_counter := pandarallel_counter c;
                     pandarallel_queue := pandarallel_queue c ++ [m] |}).

(** [next(pandarallel_counter)] on an [itertools.count]. *)
Definition next_counter : io context Z := λ c,
  (Ok (pandarallel_counter c),
   {| pandarallel_counter := (pandarallel_counter c + 1)%Z;
      pandarallel_queue := pandarallel_queue c |}).

(** The statements of [to_add], with [period], [PROGRESSION] and
    [index] formatted in. *)
Definition to_add (period : Z) (index : nat) : io context () :=
  iteration ← next_counter;
  r ← io_lift (py_mod iteration period);
  if negb (truthy r)
  then queue_put (PROGRESSION, Tick index iteration)
  else mret ().

Section Wrap.
Context {Obj : Type}.

(** A callable of one argument. *)
Definition callable : Type := Obj → io context Obj.

(** Modelled from the spec: [inliner_trick] is called by [wrap] and is
    not defined in [pandarallel.py].  By section 4.1 the function it
    builds, [progress_func], runs the added statements and "then
    proceeds to execute the original body unchanged". *)
Definition inliner_trick (func : callable) (added : io context ())
  : callable :=
  λ x, _ ← added; func x.

(** [context] as [wrap] leaves it: a new [count()] and the queue. *)
Definition wrap_context (queue : list message) : context :=
  {| pandarallel_counter := 0; pandarallel_queue := queue |}.

(** [wrap(context, progress_bar, index, queue, period)(func)] *)
Definition wrap (progress_bar : bool) (index : nat) (period : Z)
    (func : callable) : callable :=
  if progress_bar
  then inliner_trick func (to_add period index)
  else func.

End Wrap.
Arguments callable : clear implicits.

(** ** The engine *)

Section Engine.

(** Python objects: datasets, partitions, results and metadata are
    values of one type, as in the program. *)
Context {Obj : Type}.

(** [len(chunk)], whether [pickle.dump] accepts an object, and the
    object [None]. *)
Context (len : Obj → nat) (picklable : Obj → bool) (PyNone : Obj).

(** The hooks of a partitioning adapter (section 6 of the spec); the
    adapters live in other modules of the package. *)
Record adapter := {
  get_chunks : nat → Obj → Obj → result (list Obj);
  worker : Obj → nat → Obj → callable Obj → Obj → io context Obj;
  reduce : list Obj → Obj → result Obj;
}.

(** The display of [ProgressBarsNotebookLab]: what it was created
    with, the calls of [update] and the workers given to [set_error]. *)
Record bars := {
  bar_lengths : list nat;
  bar_updates : list (list Z);
  bar_errors : list nat;
}.

Definition ProgressBarsNotebookLab (chunk_lengths : list nat) : bars :=
  {| bar_lengths := chunk_lengths; bar_updates := []; bar_errors := [] |}.

Definition bars_update (progresses : list Z) (b : bars) : bars :=
  {| bar_lengths := bar_lengths b;
     bar_updates := bar_updates b ++ [progresses];
     bar_errors := bar_errors b |}.

Definition bars_set_error (worker_index : nat) (b : bars) : bars :=
  {| bar_lengths := bar_lengths b;
     bar_updates := bar_updates b;
     bar_errors := bar_errors b ++ [worker_index] |}.

(** *** The aggregator (lines 313-370) *)

(** The local variables of [get_workers_result] and the files;
    [progress_bars] and [progresses] are bound only when
    [show_progress_bar] holds. *)
Record aggregator := {
  progress_bars : option bars;
  progresses : option (list Z);
  finished_workers : list Z;
  generation : Z;
  agg_world : world Obj;
}.

Definition local {A} (var : string) (v : option A) : result A :=
  match v with
  | Some x => Ok x
  | None => Raise (UnboundLocalError var)
  end.

Definition aggregator_init (nb_workers : nat) (show_progress_bar : bool)
    (chunk_lengths : list nat) (w : world Obj) : aggregator :=
  {| progress_bars :=
       if show_progress_bar
       then Some (ProgressBarsNotebookLab chunk_lengths) else None;
     progresses :=
       if show_progress_bar then Some (replicate nb_workers 0%Z) else None;
     finished_workers := replicate nb_workers 0%Z;
     generation := 0;
     agg_world := w |}.

(** One iteration of the loop body, on the message [queue.get()]
    returned. *)
Definition handle_message (nb_workers : nat) (show_progress_bar : bool)
    (chunk_lengths : list nat) (input_files : list tmpfile)
    (st : aggregator) (m : message) : result aggregator :=
  let '(message_type, msg) := m in
  if decide (message_type = INPUT_FILE_READ) then
    match msg with
    | Index file_index =>
        f ← list_getitem input_files file_index;
        Ok {| progress_bars := progress_bars st;
              progresses := progresses st;
              finished_workers := finished_workers st;
              generation := generation st;
              agg_world := close f (agg_world st) |}
    | Tick _ _ => Raise (TypeError "list indices must be integers")
    end
  else if decide (message_type = PROGRESSION) then
    match msg with
    | Tick worker_index progression =>
        ps ← local "progresses" (progresses st);
        ps ← list_setitem ps worker_index progression;
        r ← py_mod (generation st) (Z.of_nat nb_workers);
        pb ← (if decide (r = 0%Z)
              then b ← local "progress_bars" (progress_bars st);
                   Ok (Some (bars_update ps b))
              else Ok (progress_bars st));
        Ok {| progress_bars := pb;
              progresses := Some ps;
              finished_workers := finished_workers st;
              generation := (generation st + 1)%Z;
              agg_world := agg_world st |}
    | Index _ => Raise (TypeError "cannot unpack non-iterable int object")
    end
  else if decide (message_type = VALUE) then
    match msg with
    | Index worker_index =>
        fw ← list_setitem (finished_workers st) worker_index VALUE;
        if show_progress_bar then
          n ← list_getitem chunk_lengths worker_index;
          ps ← local "progresses" (progresses st);
          ps ← list_setitem ps worker_index (Z.of_nat n);
          b ← local "progress_bars" (progress_bars st);
          Ok {| progress_bars := Some (bars_update ps b);
                progresses := Some ps;
                finished_workers := fw;
                generation := generation st;
                agg_world := agg_world st |}
        else
          Ok {| progress_bars := progress_bars st;
                progresses := progresses st;
                finished_workers := fw;
                generation := generation st;
                agg_world := agg_world st |}
    | Tick _ _ => Raise (TypeError "list indices must be integers")
    end
  else if decide (message_type = ERROR) then
    match msg with
    | Index worker_index =>
        fw ← list_setitem (finished_workers st) worker_index ERROR;
        if show_progress_bar then
          b ← local "progress_bars" (progress_bars st);
          ps ← local "progresses" (progresses st);
          Ok {| progress_bars :=
                  Some (bars_update ps (bars_set_error worker_index b));
                progresses := progresses st;
                finished_workers := fw;
                generation := generation st;
                agg_world := agg_world st |}
        else
          Ok {| progress_bars := progress_bars st;
                progresses := progresses st;
                finished_workers := fw;
                generation := generation st;
                agg_world := agg_world st |}
    | Tick _ _ => Raise (TypeError "list indices must be integers")
    end
  else Ok st.

(** How the loop ends: its condition fails ([Finished], with the
    messages left in the queue), an exception leaves it ([Failed]), or
    [queue.get()] waits for a message that never comes ([Waiting]). *)
Inductive loop_end :=
| Finished (st : aggregator) (rest : list message)
| Failed (e : exn) (st : aggregator)
| Waiting (st : aggregator).

(** [while not all(finished_workers): ...], on the messages the queue
    delivers in order. *)
Fixpoint aggregator_loop (nb_workers : nat) (show_progress_bar : bool)
    (chunk_lengths : list nat) (input_files : list tmpfile)
    (queue : list message) (st : aggregator) : loop_end :=
  if all (finished_workers st) then Finished st queue
  else
    match queue with
    | [] => Waiting st
    | m :: queue' =>
        match handle_message nb_workers show_progress_bar chunk_lengths
                input_files st m with
        | Ok st' =>
            aggregator_loop nb_workers show_progress_bar chunk_lengths
              input_files queue' st'
        | Raise e => Failed e st
        end
    end.

(** *** Work items and workers (lines 157-206) *)

(** The tuple [worker_args]: eight components in shared-memory mode,
    seven in direct mode.  The queue is the shared one and is not a
    component here; [dilled_func] stands for the bytes [dill.dumps]
    returns, which [dill.loads] turns back into the callable. *)
Inductive worker_args :=
| ShmArgs (input_file_path output_file_path : string) (index : nat)
    (meta_args : Obj) (dilled_func : callable Obj) (args : Obj)
| DirectArgs (data : Obj) (index : nat)
    (meta_args : Obj) (dilled_func : callable Obj) (args : Obj).

(** What a worker process sees: the files and the globals of the
    function it runs, the queue among them. *)
Record process := {
  proc_world : world Obj;
  proc_context : context;
}.

Definition in_context {A} (m : io context A) : io process A := λ p,
  let '(r, c) := m (proc_context p) in
  (r, {| proc_world := proc_world p; proc_context := c |}).

(** [pickle.load] on the file opened at [path]. *)
Definition load_path (path : string) : io process Obj := λ p,
  match files (proc_world p) !! path with
  | None => (Raise (FileNotFoundError path), p)
  | Some None => (Raise EOFError, p)
  | Some (Some data) => (Ok data, p)
  end.

(** [pickle.dump(obj, file)] on [open(path, "wb")]: the file is
    created or emptied, then written if the object can be pickled. *)
Definition dump_path {S} (get : S → world Obj) (set : world Obj → S → S)
    (obj : Obj) (path : string) : io S () := λ s,
  let w := get s in
  if picklable obj
  then (Ok (), set {| next_token := next_token w;
                      files := <[path := Some obj]> (files w) |} s)
  else (Raise PicklingError,
        set {| next_token := next_token w;
               files := <[path := None]> (files w) |} s).

Definition set_proc_world (w : world Obj) (p : process) : process :=
  {| proc_world := w; proc_context := proc_context p |}.

(** [except Exception: queue.put((ERROR, index)); raise] *)
Definition on_exception {A} (index : nat) (body : io process A)
  : io process A := λ p,
  match body p with
  | (Ok a, p1) => (Ok a, p1)
  | (Raise e, p1) =>
      let '(_, p2) := in_context (queue_put (ERROR, Index index)) p1 in
      (Raise e, p2)
  end.

(** [prepare_worker(use_memory_fs)(function)]: the [wrapper] run on
    one work item.  It returns [None] in shared-memory mode and the
    result in direct mode. *)
Definition prepare_worker (use_memory_fs : bool)
    (function : Obj → nat → Obj → callable Obj → Obj → io context Obj)
    (wa : worker_args) : io process Obj :=
  if use_memory_fs then
    match wa with
    | ShmArgs input_file_path output_file_path index meta_args
        dilled_func args =>
        on_exception index (
          data ← load_path input_file_path;
          _ ← in_context (queue_put (INPUT_FILE_READ, Index index));
          res ← in_context (function data index meta_args dilled_func args);
          _ ← dump_path proc_world set_proc_world res output_file_path;
          _ ← in_context (queue_put (VALUE, Index index));
          mret PyNone)
    | DirectArgs _ _ _ _ _ =>
        io_raise (ValueError "not enough values to unpack")
    end
  else
    match wa with
    | DirectArgs data index meta_args dilled_func args =>
        on_exception index (
          res ← in_context (function data index meta_args dilled_func args);
          _ ← in_context (queue_put (VALUE, Index index));
          mret res)
    | ShmArgs _ _ _ _ _ _ =>
        io_raise (ValueError "too many values to unpack")
    end.

(** *** Building the work items (lines 240-310) *)

Definition dump_and_get_lenght (ci : Obj * tmpfile) : io (world Obj) nat :=
  let '(chunk, input_file) := ci in
  _ ← dump_path id (λ w _, w) chunk (name input_file);
  mret (len chunk).

Definition period_of (chunk_length : nat) : Z :=
  (Z.of_nat chunk_length `div` 100)%Z.

(** The result of [get_workers_args]. *)
Definition prepared : Type :=
  list worker_args * list nat * list tmpfile * list tmpfile.

Definition get_workers_args (use_memory_fs : bool) (nb_workers : nat)
    (progress_bar : bool) (chunks : list Obj) (worker_meta_args : Obj)
    (func : callable Obj) (args : Obj) : io (world Obj) prepared :=
  if use_memory_fs then
    input_files ← (λ w, let '(fs, w1) := create_temp_files nb_workers w in
                        (Ok fs, w1));
    output_files ← (λ w, let '(fs, w1) := create_temp_files nb_workers w in
                         (Ok fs, w1));
    chunk_lengths ← io_map dump_and_get_lenght (zip chunks input_files);
    let workers_args :=
      imap (λ index '(input_file, output_file, chunk_length),
              ShmArgs (name input_file) (name output_file) index
                worker_meta_args
                (wrap progress_bar index (period_of chunk_length) func)
                args)
           (zip (zip input_files output_files) chunk_lengths) in
    mret (workers_args, chunk_lengths, input_files, output_files)
  else
    let pairs :=
      imap (λ index chunk,
              (DirectArgs chunk index worker_meta_args
                 (wrap progress_bar index (period_of (len chunk)) func)
                 args,
               len chunk))
           chunks in
    match pairs with
    | [] => io_raise (ValueError "not enough values to unpack")
    | _ => mret (pairs.*1, pairs.*2, [], [])
    end.

(** *** The pool

    [pool.map_async(global_worker, workers_args)] hands the work items
    to the worker processes; [schedule] lists the items in the order in
    which the processes run them to completion.  A process starts from
    the globals [dill.loads] rebuilds: a counter at [0] and the shared
    queue. *)

Record pool := {
  pool_world : world Obj;
  pool_queue : list message;
  pool_outcomes : list (nat * result Obj);
}.

Definition run_item (use_memory_fs : bool)
    (function : Obj → nat → Obj → callable Obj → Obj → io context Obj)
    (workers_args : list worker_args) (ps : pool) (i : nat) : pool :=
  match workers_args !! i with
  | None => ps
  | Some wa =>
      let '(r, p) :=
        prepare_worker use_memory_fs function wa
          {| proc_world := pool_world ps;
             proc_context := wrap_context (pool_queue ps) |} in
      {| pool_world := proc_world p;
         pool_queue := pandarallel_queue (proc_context p);
         pool_outcomes := pool_outcomes ps ++ [(i, r)] |}
  end.

Definition map_async (use_memory_fs : bool)
    (function : Obj → nat → Obj → callable Obj → Obj → io context Obj)
    (workers_args : list worker_args) (schedule : list nat)
    (w : world Obj) : pool :=
  foldl (run_item use_memory_fs function workers_args)
    {| pool_world := w; pool_queue := []; pool_outcomes := [] |}
    schedule.

Definition outcome_of (outcomes : list (nat * result Obj)) (i : nat)
  : option (result Obj) :=
  (λ o : nat * (nat * result Obj), o.2.2) <$>
    list_find (λ o, o.1 = i) outcomes.

Definition first_failure (outcomes : list (nat * result Obj)) : option exn :=
  match list_find (λ o, is_ok o.2 = false) outcomes with
  | Some (_, (_, Raise e)) => Some e
  | _ => None
  end.

(** [map_result.get()]: the exception of the first item that failed,
    or the values in the order of the work items; [None] when an item
    never completes, so that the call does not return. *)
Definition map_result_get (nb_items : nat)
    (outcomes : list (nat * result Obj)) : option (result (list Obj)) :=
  rs ← mapM (outcome_of outcomes) (seq 0 nb_items);
  match first_failure outcomes with
  | Some e => Some (Raise e)
  | None => Some (Ok (omap (λ r, match r with Ok v => Some v
                                        | Raise _ => None end) rs))
  end.

(** [pickle.load(output_file)] on the handle of a temporary file. *)
Definition load_handle (w : world Obj) (f : tmpfile) : result Obj :=
  match files w !! name f with
  | None => Raise (ValueError "I/O operation on closed file")
  | Some None => Raise EOFError
  | Some (Some v) => Ok v
  end.

(** What a call comes to: a value, an exception, or no return at all. *)
Inductive ending (A : Type) :=
| Returns (v : A)
| Raises (e : exn)
| Blocks.
Arguments Returns {A} v.
Arguments Raises {A} e.
Arguments Blocks {A}.

(** [get_workers_result] (lines 313-370), with the display and the
    files as it leaves them. *)
Definition get_workers_result (use_memory_fs : bool) (nb_workers : nat)
    (show_progress_bar : bool) (queue : list message)
    (chunk_lengths : list nat) (input_files output_files : list tmpfile)
    (map_result : option (result (list Obj))) (w : world Obj)
  : ending (list Obj) * option bars * world Obj :=
  match aggregator_loop nb_workers show_progress_bar chunk_lengths
          input_files queue
          (aggregator_init nb_workers show_progress_bar chunk_lengths w) with
  | Waiting st => (Blocks, progress_bars st, agg_world st)
  | Failed e st => (Raises e, progress_bars st, agg_world st)
  | Finished st _ =>
      match map_result with
      | None => (Blocks, progress_bars st, agg_world st)
      | Some (Raise e) => (Raises e, progress_bars st, agg_world st)
      | Some (Ok results) =>
          if use_memory_fs then
            match mapM (load_handle (agg_world st)) output_files with
            | Ok vs => (Returns vs, progress_bars st, agg_world st)
            | Raise e => (Raises e, progress_bars st, agg_world st)
            end
          else (Returns results, progress_bars st, agg_world st)
      end
  end.

(** *** The coordinator (lines 373-428) *)

(** The closure [parallelize] returns, as the values it captures. *)
Record parallel_op := {
  op_nb_workers : nat;
  op_use_memory_fs : bool;
  op_progress_bar : bool;
  op_adapter : adapter;
  op_get_worker_meta_args : Obj → result Obj;
  op_get_reduce_meta_args : Obj → result Obj;
}.

Definition parallelize (nb_workers : nat) (use_memory_fs progress_bar : bool)
    (a : adapter) (get_worker_meta_args get_reduce_meta_args : Obj → result Obj)
  : parallel_op :=
  {| op_nb_workers := nb_workers;
     op_use_memory_fs := use_memory_fs;
     op_progress_bar := progress_bar;
     op_adapter := a;
     op_get_worker_meta_args := get_worker_meta_args;
     op_get_reduce_meta_args := get_reduce_meta_args |}.

(** What a call of the closure leaves behind. *)
Record outcome := {
  out_end : ending Obj;
  out_bars : option bars;
  out_queue : list message;
  out_world : world Obj;
}.

Definition close_all (fs : list tmpfile) (w : world Obj) : world Obj :=
  foldl (λ w f, close f w) w fs.

(** The [finally] clause. *)
Definition release (use_memory_fs : bool)
    (input_files output_files : list tmpfile) (w : world Obj) : world Obj :=
  if use_memory_fs then close_all (input_files ++ output_files) w else w.

(** The [try] block: pool, dispatch, aggregation and reduction. *)
Definition dispatch (op : parallel_op) (schedule : list nat)
    (p : prepared) (reduce_meta_args : Obj) (w : world Obj) : outcome :=
  let '(workers_args, chunk_lengths, input_files, output_files) := p in
  if decide (op_nb_workers op < 1) then
    {| out_end := Raises (ValueError "Number of processes must be at least 1");
       out_bars := None; out_queue := []; out_world := w |}
  else
    let ps := map_async (op_use_memory_fs op) (worker (op_adapter op))
                workers_args schedule w in
    let '(e, b, w1) :=
      get_workers_result (op_use_memory_fs op) (op_nb_workers op)
        (op_progress_bar op) (pool_queue ps) chunk_lengths
        input_files output_files
        (map_result_get (length workers_args) (pool_outcomes ps))
        (pool_world ps) in
    let e' :=
      match e with
      | Returns results =>
          match reduce (op_adapter op) results reduce_meta_args with
          | Ok v => Returns v
          | Raise x => Raises x
          end
      | Raises x => Raises x
      | Blocks => Blocks
      end in
    {| out_end := e'; out_bars := b; out_queue := pool_queue ps;
       out_world := w1 |}.

(** [closure(data, func, *args, **kwargs)] *)
Definition closure (op : parallel_op) (schedule : list nat)
    (data : Obj) (func : callable Obj) (args : Obj) (w : world Obj)
  : outcome :=
  let raised e w :=
    {| out_end := Raises e; out_bars := None; out_queue := [];
       out_world := w |} in
  match get_chunks (op_adapter op) (op_nb_workers op) data args with
  | Raise e => raised e w
  | Ok chunks =>
  match op_get_worker_meta_args op data with
  | Raise e => raised e w
  | Ok worker_meta_args =>
  match op_get_reduce_meta_args op data with
  | Raise e => raised e w
  | Ok reduce_meta_args =>
  match get_workers_args (op_use_memory_fs op) (op_nb_workers op)
          (op_progress_bar op) chunks worker_meta_args func args w with
  | (Raise e, w1) => raised e w1
  | (Ok p, w1) =>
      let o := dispatch op schedule p reduce_meta_args w1 in
      match out_end o with
      | Blocks => o
      | _ =>
          {| out_end := out_end o; out_bars := out_bars o;
             out_queue := out_queue o;
             out_world := release (op_use_memory_fs op) p.1.2 p.2
                            (out_world o) |}
      end
  end end end end.

End Engine.

Arguments Returns {A} v.
Arguments Raises {A} e.
Arguments Blocks {A}.
Arguments adapter : clear implicits.
Arguments parallel_op : clear implicits.
Arguments bars : clear implicits.
Arguments outcome : clear implicits.

(** ** Initialization (lines 431-540) *)

(** What [initialize] asks the operating system. *)
Record os := {
  path_exists : string → bool;
  user_can_write : string → bool;
}.

(** [is_memory_fs_available] (lines 44-45) *)
Definition is_memory_fs_available (sys : os) : bool :=
  path_exists sys MEMORY_FS_ROOT.

Section Initialize.
Context {Obj : Type}.

(** The adapters of the package and the object [dict()]. *)
Context (DF_Apply DF_ApplyMap S_Apply S_Map SR DFGB RGB : adapter Obj).
Context (SR_att2value DFGB_get_index : Obj → result Obj).
Context (empty_dict : Obj).

(** The default of [get_worker_meta_args] and [get_reduce_meta_args]:
    [lambda _: dict()]. *)
Definition no_meta_args : Obj → result Obj := λ _, Ok empty_dict.

(** The attributes [initialize] sets, by class and name. *)
Abbreviation registry := (gmap string (parallel_op Obj)).

Definition initialize (sys : os) (nb_workers : nat) (progress_bar : bool)
    (verbose : Z) (use_memory_fs : option bool)
  : result (list string * registry) :=
  let memory_fs_available := is_memory_fs_available sys in
  let use_memory_fs :=
    match use_memory_fs with
    | Some true => true
    | Some false => false
    | None => memory_fs_available
    end in
  if use_memory_fs && negb memory_fs_available
  then Raise (SystemError "Memory file system is not available")
  else
    let printed :=
      if decide (1 ≤ verbose)%Z then
        [ "Pandarallel will run on " +:+ pretty nb_workers +:+ " workers.";
          if use_memory_fs
          then "Pandarallel will use Memory file system to transfer data between the main process and workers."
          else "Pandarallel will use standard multiprocessing data transfer (pipe) to transfer data between the main process and workers." ]
      else [] in
    let nbw := nb_workers in
    let bargs := parallelize nbw use_memory_fs progress_bar in
    let bargs0 := parallelize nbw use_memory_fs false in
    Ok (printed,
        <["RollingGroupby.parallel_apply" :=
            bargs RGB SR_att2value no_meta_args]> (
        <["DataFrameGroupBy.parallel_apply" :=
            bargs0 DFGB no_meta_args DFGB_get_index]> (
        <["Rolling.parallel_apply" :=
            bargs SR SR_att2value no_meta_args]> (
        <["Series.parallel_map" :=
            bargs S_Map no_meta_args no_meta_args]> (
        <["Series.parallel_apply" :=
            bargs S_Apply no_meta_args no_meta_args]> (
        <["DataFrame.parallel_applymap" :=
            bargs DF_ApplyMap no_meta_args no_meta_args]> (
        <["DataFrame.parallel_apply" :=
            bargs DF_Apply no_meta_args no_meta_args]> ∅))))))).

End Initialize.

(** ** The instrumentor: partial application by rewriting (lines 48-154) *)

(** Constants of a code object and bound values. *)
Inductive value :=
| VNone
| VInt (z : Z).

#[global] Instance value_eq_dec : EqDecision value.
Proof. solve_decision. Defined.

Definition value_to_option (v : value) : option Z :=
  match v with VNone => None | VInt z => Some z end.

Definition value_of_option (o : option Z) : value :=
  match o with None => VNone | Some z => VInt z end.

#[global] Instance value_countable : Countable value :=
  inj_countable' value_to_option value_of_option
    (λ v, match v with VNone => eq_refl | VInt _ => eq_refl end).

(** The fields [CodeType] is given (lines 136-152); [co_code] is the
    byte string, one [Z] in [0, 256) a byte. *)
Record code := {
  co_argcount : nat;
  co_kwonlyargcount : nat;
  co_nlocals : nat;
  co_stacksize : nat;
  co_flags : Z;
  co_code : list Z;
  co_consts : list value;
  co_names : list string;
  co_varnames : list string;
  co_filename : string;
  co_name : string;
  co_firstlineno : nat;
  co_lnotab : list Z;
  co_freevars : list string;
  co_cellvars : list string;
}.

(** A function object; [__globals__] is the identity of the globals
    dictionary. *)
Record function := {
  __code__ : code;
  __globals__ : nat;
  __name__ : string;
  __defaults__ : option (list value);
  __closure__ : option (list value);
  __dict__ : gmap string value;
}.

(** Function objects live in a heap; a function value is its address. *)
Abbreviation heap := (gmap nat function).

(** Python dictionaries keep their keys in insertion order; setting a
    key that is present keeps its place. *)
Fixpoint dict_set {K V} `{EqDecision K} (d : list (K * V)) (k : K) (v : V)
  : list (K * V) :=
  match d with
  | [] => [(k, v)]
  | (k', v') :: d' =>
      if decide (k' = k) then (k, v) :: d' else (k', v') :: dict_set d' k v
  end.

Fixpoint dict_get {K V} `{EqDecision K} (d : list (K * V)) (k : K)
  : option V :=
  match d with
  | [] => None
  | (k', v') :: d' => if decide (k' = k) then Some v' else dict_get d' k
  end.

(** [{k: v for ...}] *)
Definition dict_of {K V} `{EqDecision K} (items : list (K * V))
  : list (K * V) :=
  foldl (λ d kv, dict_set d kv.1 kv.2) [] items.

(** [t.index(x)] *)
Definition tuple_index {A} `{EqDecision A} (t : list A) (x : A) : result nat :=
  match list_find (λ y, y = x) t with
  | Some (i, _) => Ok i
  | None => Raise (ValueError "tuple.index(x): x not in tuple")
  end.

(** [sorted(l, key=key)] and, with [reverse], [sorted(l, key=key,
    reverse=True)]: equal keys keep their order. *)
Fixpoint sorted_insert {A} (before : nat → nat → bool) (key : A → nat)
    (x : A) (l : list A) : list A :=
  match l with
  | [] => [x]
  | y :: l' =>
      if before (key y) (key x)
      then y :: sorted_insert before key x l'
      else x :: y :: l'
  end.

Definition sorted {A} (reverse : bool) (key : A → nat) (l : list A) : list A :=
  foldr (sorted_insert (if reverse then λ a b, (b <? a)%nat
                        else λ a b, (a <? b)%nat) key)
        [] l.

(** The order in which [tuple(s)], [sorted(s, ...)] and the like go
    through a set [s].  Python fixes it by the hashes of the elements,
    which change from one process to the next for strings. *)
Class SetOrder := {
  names_of_set : gset string → list string;
  values_of_set : gset value → list value;
  names_of_set_NoDup s : NoDup (names_of_set s);
  elem_of_names_of_set s x : x ∈ names_of_set s ↔ x ∈ s;
  values_of_set_NoDup s : NoDup (values_of_set s);
  elem_of_values_of_set s x : x ∈ values_of_set s ↔ x ∈ s;
}.

(** [c_uint8(n)] as the byte it adds to a byte string. *)
Definition c_uint8 (n : nat) : Z := (Z.of_nat n `mod` 256)%Z.

(** The opcodes the program names by their characters. *)
Definition LOAD_FAST : Z := 124.   (* b"|" *)
Definition STORE_FAST : Z := 125.  (* b"}" *)
Definition LOAD_CONST : Z := 100.  (* b"d" *)

(** [s.startswith(k)] on byte strings. *)
Fixpoint starts_with (k s : list Z) : bool :=
  match k, s with
  | [], _ => true
  | a :: k', b :: s' => (a =? b)%Z && starts_with k' s'
  | _ :: _, [] => false
  end.

(** [regex.sub(lambda match: substitutions[match.group(0)], string)]
    for the alternation of the literals [substrings], none of them
    empty: at each position the first literal that matches is replaced,
    and the scan goes on after it.  [skip] counts the bytes of a match
    still to pass. *)
Fixpoint regex_sub (substrings : list (list Z))
    (substitutions : list (list Z * list Z)) (skip : nat)
    (string : list Z) : list Z :=
  match string with
  | [] => []
  | b :: string' =>
      match skip with
      | S n => regex_sub substrings substitutions n string'
      | O =>
          match list_find (λ k, starts_with k string = true) substrings with
          | Some (_, k) =>
              default [] (dict_get substitutions k)
              ++ regex_sub substrings substitutions (length k - 1) string'
          | None => b :: regex_sub substrings substitutions 0 string'
          end
      end
  end.

(** [replace] (lines 63-66).  With no substitution the pattern is
    empty: it matches the empty string, which is not a key. *)
Definition replace (string : list Z) (substitutions : list (list Z * list Z))
  : result (list Z) :=
  let substrings := sorted true length substitutions.*1 in
  match substrings with
  | [] => Raise (KeyError "b''")
  | _ => Ok (regex_sub substrings substitutions 0 string)
  end.

Section Instrumentor.
Context `{SetOrder}.

(** [tuple_remove_duplicate] (lines 69-70) *)
Definition tuple_remove_duplicate (tuple_ : list value) : list value :=
  sorted false
    (λ v, match tuple_index tuple_ v with Ok i => i | Raise _ => 0 end)
    (values_of_set (list_to_set tuple_)).

(** [replace_load_fast_by_load_const] (lines 73-79) *)
Definition replace_load_fast_by_load_const (bytecode : list Z)
    (varname_index2const_index : list (nat * nat)) : result (list Z) :=
  let varname_index2const_index :=
    dict_of (map (λ '(fast_index, const_index),
                    ([LOAD_FAST; c_uint8 fast_index],
                     [LOAD_CONST; c_uint8 const_index]))
                 varname_index2const_index) in
  replace bytecode varname_index2const_index.

(** [replace_fast_by_fast] (lines 82-99) *)
Definition replace_fast_by_fast (bytecode : list Z)
    (varname_index2varname_new_index : list (nat * nat)) : result (list Z) :=
  let store_varname_index2varname_new_index :=
    dict_of (map (λ '(fast_index, fast_new_index),
                    ([STORE_FAST; c_uint8 fast_index],
                     [STORE_FAST; c_uint8 fast_new_index]))
                 varname_index2varname_new_index) in
  bytecode ← replace bytecode store_varname_index2varname_new_index;
  let load_varname_index2varname_new_index :=
    dict_of (map (λ '(fast_index, fast_new_index),
                    ([LOAD_FAST; c_uint8 fast_index],
                     [LOAD_FAST; c_uint8 fast_new_index]))
                 varname_index2varname_new_index) in
  bytecode ← replace bytecode load_varname_index2varname_new_index;
  Ok bytecode.

(** [FunctionType(code, globals, name, argdefs, closure)]: a new
    function object at an address not in use. *)
Definition FunctionType (c : code) (globals : nat) (name : string)
    (argdefs closure : option (list value)) : io heap nat := λ h,
  let a := fresh (dom h) in
  (Ok a,
   <[a := {| __code__ := c; __globals__ := globals; __name__ := name;
             __defaults__ := argdefs; __closure__ := closure;
             __dict__ := ∅ |}]> h).

(** Reading a function object through its address. *)
Definition deref (func : nat) : io heap function := λ h,
  match h !! func with
  | Some f => (Ok f, h)
  | None => (Raise (TypeError "not a function"), h)
  end.

(** [name or func.__name__] *)
Definition name_or (name : option string) (other : string) : string :=
  match name with
  | Some n => if decide (n = "") then other else n
  | None => other
  end.

(** [copy_func] (lines 48-60) *)
Definition copy_func (func : nat) (name : option string) : io heap nat :=
  f ← deref func;
  new_func ← FunctionType (__code__ f) (__globals__ f)
                (name_or name (__name__ f)) (__defaults__ f) (__closure__ f);
  _ ← io_modify (alter (λ nf : function,
         {| __code__ := __code__ nf; __globals__ := __globals__ nf;
            __name__ := __name__ nf; __defaults__ := __defaults__ nf;
            __closure__ := __closure__ nf;
            __dict__ := __dict__ f ∪ __dict__ nf |}) new_func);
  mret new_func.

(** [CodeType(...)] with the fifteen arguments of line 136; the counts
    must not be negative and the name must be a string. *)
Definition CodeType (argcount : Z) (kwonlyargcount : nat) (nlocals : nat)
    (stacksize : nat) (flags : Z) (codestring : list Z)
    (constants : list value) (names varnames : list string)
    (filename : string) (name : option string) (firstlineno : nat)
    (lnotab : list Z) (freevars cellvars : list string) : result code :=
  if decide (argcount < 0)%Z
  then Raise (ValueError "code: argcount must not be negative")
  else
    match name with
    | None => Raise (TypeError "argument 11 must be str, not None")
    | Some name =>
        Ok {| co_argcount := Z.to_nat argcount;
              co_kwonlyargcount := kwonlyargcount;
              co_nlocals := nlocals;
              co_stacksize := stacksize;
              co_flags := flags;
              co_code := codestring;
              co_consts := constants;
              co_names := names;
              co_varnames := varnames;
              co_filename := filename;
              co_name := name;
              co_firstlineno := firstlineno;
              co_lnotab := lnotab;
              co_freevars := freevars;
              co_cellvars := cellvars |}
    end.

(** [str(func)], without the address. *)
Definition str_function (f : function) : string :=
  "<function " +:+ __name__ f +:+ ">".

(** The loop of lines 108-110. *)
Fixpoint check_names (f : function) (names : list string) : result () :=
  match names with
  | [] => Ok ()
  | arg_name :: names' =>
      if decide (arg_name ∈ co_varnames (__code__ f))
      then check_names f names'
      else Raise (KeyError (arg_name +:+ " is not an argument of "
                              +:+ str_function f))
  end.

(** What lines 112-131 compute from the code object and the
    bindings. *)
Record rewriting := {
  new_consts : list value;
  new_varnames : list string;
  new_co_code : list Z;
}.

Definition rewrite_code (fcode : code) (arg_name2value : list (string * value))
  : result rewriting :=
  let new_consts :=
    tuple_remove_duplicate (co_consts fcode ++ arg_name2value.*2) in
  items ← mapM (λ '(arg_name, value),
                  i ← tuple_index (co_varnames fcode) arg_name;
                  c ← tuple_index new_consts value;
                  Ok (i, c))
               arg_name2value;
  let varname_index2new_const_index := dict_of items in
  let new_varnames :=
    names_of_set (list_to_set (co_varnames fcode)
                    ∖ list_to_set arg_name2value.*1) in
  items ← mapM (λ arg_name,
                  i ← tuple_index (co_varnames fcode) arg_name;
                  n ← tuple_index new_varnames arg_name;
                  Ok (i, n))
               new_varnames;
  let varname_index2varname_new_index := dict_of items in
  new_co_code ← replace_load_fast_by_load_const (co_code fcode)
                   varname_index2new_const_index;
  new_co_code ← replace_fast_by_fast new_co_code
                   varname_index2varname_new_index;
  Ok {| new_consts := new_consts; new_varnames := new_varnames;
        new_co_code := new_co_code |}.

(** [inlined_partial] (lines 102-154) *)
Definition inlined_partial (func : nat) (name : option string)
    (arg_name2value : list (string * value)) : io heap nat :=
  f ← deref func;
  _ ← io_lift (check_names f arg_name2value.*1);
  let fcode := __code__ f in
  r ← io_lift (rewrite_code fcode arg_name2value);
  new_func ← copy_func func name;
  nf ← deref new_func;
  let nfcode := __code__ nf in
  c ← io_lift (CodeType
         (Z.of_nat (co_argcount nfcode) - Z.of_nat (length arg_name2value))
         (co_kwonlyargcount nfcode)
         (length (new_varnames r))
         (co_stacksize nfcode)
         (co_flags nfcode)
         (new_co_code r)
         (new_consts r)
         (co_names nfcode)
         (new_varnames r)
         (co_filename nfcode)
         name
         (co_firstlineno nfcode)
         (co_lnotab nfcode)
         (co_freevars nfcode)
         (co_cellvars nfcode));
  _ ← io_modify (alter (λ nf : function,
         {| __code__ := c; __globals__ := __globals__ nf;
            __name__ := __name__ nf; __defaults__ := __defaults__ nf;
            __closure__ := __closure__ nf; __dict__ := __dict__ nf |})
         new_func);
  mret new_func.

End Instrumentor.

(** ** Running a code object

    The interpreter is not part of the package; this is the evaluation
    loop of CPython 3.6/3.7 (two bytes an instruction, the layout the
    patterns of [replace_fast_by_fast] assume) for the instructions
    below.  Any other instruction, an odd offset, or a slot or constant
    out of range ends in [Stuck]. *)

Definition POP_TOP : Z := 1.
Definition BINARY_MULTIPLY : Z := 20.
Definition BINARY_ADD : Z := 23.
Definition BINARY_SUBTRACT : Z := 24.
Definition RETURN_VALUE : Z := 83.
Definition JUMP_ABSOLUTE : Z := 113.
Definition POP_JUMP_IF_FALSE : Z := 114.

Record frame := {
  f_lasti : nat;
  f_stack : list value;
  f_localsplus : list (option value);
}.

Inductive vm_end :=
| Returned (v : value)
| Raised (e : exn)
| Stuck
| OutOfFuel.

Definition binary_op (op : Z → Z → Z) (lhs rhs : value) : result value :=
  match lhs, rhs with
  | VInt x, VInt y => Ok (VInt (op x y))
  | _, _ => Raise (TypeError "unsupported operand type(s)")
  end.

Definition is_true (v : value) : bool :=
  match v with
  | VNone => false
  | VInt z => negb (z =? 0)%Z
  end.

Definition fetch (codestring : list Z) (offset : nat) : option (Z * Z) :=
  if Nat.even offset then
    op ← codestring !! offset;
    arg ← codestring !! S offset;
    Some (op, arg)
  else None.

Definition goto (offset : nat) (stack : list value) (fr : frame) : frame :=
  {| f_lasti := offset; f_stack := stack;
     f_localsplus := f_localsplus fr |}.

Definition binary_step (op : Z → Z → Z) (fr : frame) : frame + vm_end :=
  match f_stack fr with
  | rhs :: lhs :: stack =>
      match binary_op op lhs rhs with
      | Ok v => inl (goto (f_lasti fr + 2) (v :: stack) fr)
      | Raise e => inr (Raised e)
      end
  | _ => inr Stuck
  end.

Definition step (c : code) (fr : frame) : frame + vm_end :=
  match fetch (co_code c) (f_lasti fr) with
  | None => inr Stuck
  | Some (op, arg) =>
      let next := f_lasti fr + 2 in
      let oparg := Z.to_nat arg in
      if decide (op = LOAD_CONST) then
        match co_consts c !! oparg with
        | Some v => inl (goto next (v :: f_stack fr) fr)
        | None => inr Stuck
        end
      else if decide (op = LOAD_FAST) then
        match f_localsplus fr !! oparg, co_varnames c !! oparg with
        | Some (Some v), _ => inl (goto next (v :: f_stack fr) fr)
        | Some None, Some x => inr (Raised (UnboundLocalError x))
        | _, _ => inr Stuck
        end
      else if decide (op = STORE_FAST) then
        match f_stack fr with
        | v :: stack =>
            if decide (oparg < length (f_localsplus fr))
            then inl {| f_lasti := next; f_stack := stack;
                        f_localsplus := <[oparg := Some v]> (f_localsplus fr) |}
            else inr Stuck
        | [] => inr Stuck
        end
      else if decide (op = POP_TOP) then
        match f_stack fr with
        | _ :: stack => inl (goto next stack fr)
        | [] => inr Stuck
        end
      else if decide (op = BINARY_ADD) then binary_step Z.add fr
      else if decide (op = BINARY_SUBTRACT) then binary_step Z.sub fr
      else if decide (op = BINARY_MULTIPLY) then binary_step Z.mul fr
      else if decide (op = JUMP_ABSOLUTE) then
        inl (goto oparg (f_stack fr) fr)
      else if decide (op = POP_JUMP_IF_FALSE) then
        match f_stack fr with
        | v :: stack =>
            inl (goto (if is_true v then next else oparg) stack fr)
        | [] => inr Stuck
        end
      else if decide (op = RETURN_VALUE) then
        match f_stack fr with
        | v :: _ => inr (Returned v)
        | [] => inr Stuck
        end
      else inr Stuck
  end.

Fixpoint run (fuel : nat) (c : code) (fr : frame) : vm_end :=
  match fuel with
  | O => OutOfFuel
  | S n =>
      match step c fr with
      | inl fr' => run n c fr'
      | inr e => e
      end
  end.

(** A call with positional arguments, of a function with neither
    defaults, keyword-only parameters, [*args] nor [**kwargs]. *)
Definition call (f : function) (args : list value) (fuel : nat) : vm_end :=
  let c := __code__ f in
  if decide (co_kwonlyargcount c = 0 ∧ __defaults__ f = None
             ∧ Z.land (co_flags c) 12 = 0%Z) then
    if decide (length args = co_argcount c) then
      run fuel c
        {| f_lasti := 0; f_stack := [];
           f_localsplus :=
             (Some <$> args)
             ++ replicate (co_nlocals c - co_argcount c) None |}
    else Raised (TypeError "wrong number of arguments")
  else Stuck.

(** The arguments of [f] when the parameters named in [bindings] take
    their bound value and the others take [rest], in order. *)
Fixpoint fill_parameters (params : list string)
    (bindings : list (string * value)) (rest : list value)
  : option (list value) :=
  match params with
  | [] => match rest with [] => Some [] | _ :: _ => None end
  | p :: params' =>
      match dict_get bindings p with
      | Some v => (v ::.) <$> fill_parameters params' bindings rest
      | None =>
          match rest with
          | r :: rest' => (r ::.) <$> fill_parameters params' bindings rest'
          | [] => None
          end
      end
  end.

Definition parameters (c : code) : list string :=
  take (co_argcount c) (co_varnames c).

(** The call of [f] on [rest] and the bindings, as in [f(a, 5, c)] for
    [rest = (a, c)] and [bindings = {b: 5}]. *)
Definition call_bound (f : function) (rest : list value)
    (bindings : list (string * value)) (fuel : nat) : vm_end :=
  match fill_parameters (parameters (__code__ f)) bindings rest with
  | Some args => call f args fuel
  | None => Raised (TypeError "wrong number of arguments")
  end.

(** ** A concrete adapter, for examples

    Objects are [None], integers, lists, and a value that cannot be
    pickled.  The adapter cuts a list into [nb_workers] slices, applies
    the function to every element of a slice, and concatenates the
    results, as [Series.parallel_apply] does. *)

Module Example.

#[warnings="-register-all"]
Inductive obj :=
| ONone
| OInt (z : Z)
| OList (l : list obj)
| OLock.

Definition obj_len (o : obj) : nat :=
  match o with
  | OList l => length l
  | _ => 0
  end.

Fixpoint obj_picklable (o : obj) : bool :=
  match o with
  | OLock => false
  | OList l => forallb obj_picklable l
  | _ => true
  end.

Definition items (o : obj) : result (list obj) :=
  match o with
  | OList l => Ok l
  | _ => Raise (TypeError "object is not iterable")
  end.

Fixpoint slices (nb : nat) (l : list obj) : list obj :=
  match nb with
  | O => []
  | S n =>
      let k := (length l + n) / nb in
      OList (take k l) :: slices n (drop k l)
  end.

Definition series : adapter obj :=
  {| get_chunks := λ nb_workers data _, l ← items data;
                                         Ok (slices nb_workers l);
     worker := λ chunk _ _ func _,
       l ← io_lift (items chunk);
       ys ← io_map func l;
       mret (OList ys);
     reduce := λ results _,
       ls ← mapM items results;
       Ok (OList (concat ls)) |}.

(** [lambda x: x * x], and a function that raises on [7]. *)
Definition square : callable obj := λ x,
  io_lift (match x with
           | OInt z => Ok (OInt (z * z))
           | _ => Raise (TypeError "unsupported operand type(s)")
           end).

Definition fails_on_7 : callable obj := λ x,
  io_lift (match x with
           | OInt 7 => Raise (UserError 7)
           | _ => Ok x
           end).

Definition series_apply (nb_workers : nat) (use_memory_fs progress_bar : bool)
  : parallel_op obj :=
  parallelize nb_workers use_memory_fs progress_bar series
    (λ _, Ok ONone) (λ _, Ok ONone).

Definition call_op (op : parallel_op obj) (schedule : list nat) (data : obj)
    (func : callable obj) : outcome obj :=
  closure obj_len obj_picklable ONone op schedule data func ONone
    {| next_token := 0; files := ∅ |}.

End Example.

(** A set order to compute with: that of stdpp's [elements]. *)
Definition elements_order : SetOrder :=
  {| names_of_set := elements;
     values_of_set := elements;
     names_of_set_NoDup := NoDup_elements;
     elem_of_names_of_set := λ s x, elem_of_elements s x;
     values_of_set_NoDup := NoDup_elements;
     elem_of_values_of_set := λ s x, elem_of_elements s x |}.

(** Code objects to compute with, as CPython 3.7 compiles them. *)
Module Sample.

(** [def f(a): x = a + 1; return x] *)
Definition code_f : code :=
  {| co_argcount := 1; co_kwonlyargcount := 0; co_nlocals := 2;
     co_stacksize := 2; co_flags := 67;
     co_code := [124; 0; 100; 1; 23; 0; 125; 1; 124; 1; 83; 0]%Z;
     co_consts := [VNone; VInt 1];
     co_names := []; co_varnames := ["a"; "x"];
     co_filename := "<stdin>"; co_name := "f"; co_firstlineno := 1;
     co_lnotab := []; co_freevars := []; co_cellvars := [] |}.

Definition f : function :=
  {| __code__ := code_f; __globals__ := 0; __name__ := "f";
     __defaults__ := None; __closure__ := None; __dict__ := ∅ |}.

(** [def sub(a, b, c): return a - b - c] *)
Definition code_sub : code :=
  {| co_argcount := 3; co_kwonlyargcount := 0; co_nlocals := 3;
     co_stacksize := 2; co_flags := 67;
     co_code := [124; 0; 124; 1; 24; 0; 124; 2; 24; 0; 83; 0]%Z;
     co_consts := [VNone];
     co_names := []; co_varnames := ["a"; "b"; "c"];
     co_filename := "<stdin>"; co_name := "sub"; co_firstlineno := 1;
     co_lnotab := []; co_freevars := []; co_cellvars := [] |}.

Definition sub : function :=
  {| __code__ := code_sub; __globals__ := 0; __name__ := "sub";
     __defaults__ := None; __closure__ := None; __dict__ := ∅ |}.

End Sample.

(** An adapter like [Example.series] whose [get_chunks] gives one
    partition for each element, and at most [nb_workers] of them: a
    series of two elements gives two partitions, whatever the number
    of workers. *)
Definition per_element : adapter Example.obj :=
  {| get_chunks := λ nb_workers data _,
       l ← Example.items data;
       Ok ((λ x, Example.OList [x]) <$> take nb_workers l);
     worker := worker Example.series;
     reduce := reduce Example.series |}.

(** ** Vocabulary of the properties *)

(** The byte string of a list of instructions, two bytes each. *)
Definition assemble (instructions : list (Z * Z)) : list Z :=
  flat_map (λ '(op, arg), [op; arg]) instructions.

(** The message says that worker [i] has finished. *)
Definition finishes (i : nat) (m : message) : Prop :=
  m = (VALUE, Index i) ∨ m = (ERROR, Index i).

(** No temporary file yet. *)
Definition empty_world {Obj} : world Obj :=
  {| next_token := 0; files := ∅ |}.

(** A user function: it returns or raises, and touches neither the
    counter nor the queue. *)
Definition user_function {Obj} (f : Obj → result Obj) : callable Obj :=
  λ x, io_lift (f x).

(** The function a work item carries. *)
Definition item_function {Obj} (wa : @worker_args Obj) : callable Obj :=
  match wa with
  | ShmArgs _ _ _ _ dilled_func _ => dilled_func
  | DirectArgs _ _ _ dilled_func _ => dilled_func
  end.

(** A system where [/dev/shm] exists and the user cannot write to it. *)
Definition read_only_shm : os :=
  {| path_exists := λ p, bool_decide (p = "/dev/shm");
     user_can_write := λ _, false |}.

(** * Properties *)

(** ** Tactics for the monads *)

Ltac result_cases :=
  repeat match goal with
  | H : context [mbind _ ?r] |- _ =>
      lazymatch r with
      | Ok _ => fail
      | Raise _ => fail
      | _ => destruct r eqn:?; cbn [mbind result_bind] in H
      end
  | H : Raise _ = Ok _ |- _ => discriminate H
  | H : Ok _ = Raise _ |- _ => discriminate H
  | H : Ok _ = Ok _ |- _ => injection H as H
  end.

Lemma list_setitem_Ok {A} (l l' : list A) i v :
  list_setitem l i v = Ok l' → i < length l ∧ l' = <[i := v]> l.
Proof. unfold list_setitem. case_decide; naive_solver. Qed.

Lemma list_getitem_Ok {A} (l : list A) i x :
  list_getitem l i = Ok x ↔ l !! i = Some x.
Proof. unfold list_getitem. destruct (l !! i); naive_solver. Qed.

Lemma all_true_lookup l i :
  all l = true → i < length l → ∃ z, l !! i = Some z ∧ z ≠ 0%Z.
Proof.
  unfold all. rewrite forallb_forall. intros Hall Hi.
  destruct (lookup_lt_is_Some_2 l i Hi) as [z Hz]. exists z. split; [done|].
  assert (truthy z = true) as Ht.
  { apply Hall. apply list_elem_of_In. by eapply list_elem_of_lookup_2. }
  unfold truthy in Ht. intros ->. discriminate.
Qed.

(** ** The aggregator loop *)

Section AggregatorFacts.
Context {Obj : Type}.
Implicit Types (st s : @aggregator Obj) (m : message).

Lemma handle_message_finished nb show cl ifs st m st' :
  handle_message nb show cl ifs st m = Ok st' →
  length (finished_workers st') = length (finished_workers st)
  ∧ ∀ i z, finished_workers st' !! i = Some z → z ≠ 0%Z →
           finished_workers st !! i = Some z ∨ finishes i m.
Proof.
  destruct m as [ty msg]. unfold handle_message, finishes.
  repeat case_decide; subst; intros Hm; destruct msg; try discriminate;
    result_cases;
    repeat match goal with
    | H : (if ?b then _ else _) = Ok _ |- _ => destruct b
    | H : list_setitem _ _ _ = Ok _ |- _ =>
        apply list_setitem_Ok in H as [? ->]
    end; result_cases; subst; simpl;
    rewrite ?length_insert; (split; [done|]); intros j z Hj Hz; auto;
    destruct (decide (j = i)) as [->|];
    rewrite ?list_lookup_insert_ne in Hj by done; auto.
Qed.

(** A message that is neither [VALUE] nor [ERROR] leaves
    [finished_workers] as it is. *)
Lemma handle_message_other nb show cl ifs st m st' :
  m.1 ≠ VALUE → m.1 ≠ ERROR →
  handle_message nb show cl ifs st m = Ok st' →
  finished_workers st' = finished_workers st.
Proof.
  destruct m as [ty msg]. unfold handle_message. simpl. intros ??.
  repeat case_decide; subst; try done; intros Hm; destruct msg;
    try discriminate; result_cases; subst; try done.
Qed.

Lemma aggregator_loop_finished nb show cl ifs queue : ∀ st st' rest,
  aggregator_loop nb show cl ifs queue st = Finished st' rest →
  all (finished_workers st') = true
  ∧ length (finished_workers st') = length (finished_workers st)
  ∧ ∃ consumed, queue = consumed ++ rest
    ∧ ∀ i z, finished_workers st' !! i = Some z → z ≠ 0%Z →
             finished_workers st !! i = Some z
             ∨ ∃ m, m ∈ consumed ∧ finishes i m.
Proof.
  induction queue as [|m queue IH]; intros st st' rest; simpl.
  - destruct (all (finished_workers st)) eqn:Hall; [|done].
    intros [= <- <-]. split_and!; [done..|]. exists []. 
    split; [done|]. intros; by left.
  - destruct (all (finished_workers st)) eqn:Hall.
    { intros [= <- <-]. split_and!; [done..|]. exists [].
      split; [done|]. intros; by left. }
    destruct (handle_message _ _ _ _ st m) as [st1|] eqn:Hm; [|done].
    intros Hloop. apply IH in Hloop as (Ha & Hlen & consumed & -> & Hc).
    apply handle_message_finished in Hm as [Hlen1 Hm].
    split_and!; [done|congruence|]. exists (m :: consumed). split; [done|].
    intros i z Hi Hz. destruct (Hc i z Hi Hz) as [H1|(m' & ? & ?)].
    + destruct (Hm i z H1 Hz) as [?|?]; [by left|].
      right. exists m. split; [left|done].
    + right. exists m'. split; [by right|done].
Qed.

(** C6: the loop of [get_workers_result] over [nb_workers] workers
    leaves by its condition only after it has taken from the queue a
    [VALUE] or [ERROR] message for every worker, and messages of any
    other kind leave [finished_workers] unchanged; the loop has no
    other normal exit. *)
Theorem aggregator_stops_when_all_finished nb_workers show chunk_lengths
    input_files queue (w : world Obj) st rest :
  aggregator_loop nb_workers show chunk_lengths input_files queue
    (aggregator_init nb_workers show chunk_lengths w) = Finished st rest →
  (∃ consumed, queue = consumed ++ rest
     ∧ ∀ i, i < nb_workers → ∃ m, m ∈ consumed ∧ finishes i m)
  ∧ (∀ s m s', m.1 ≠ VALUE → m.1 ≠ ERROR →
       handle_message nb_workers show chunk_lengths input_files s m = Ok s' →
       finished_workers s' = finished_workers s).
Proof.
  intros Hloop. split; [|eauto using handle_message_other].
  apply aggregator_loop_finished in Hloop
    as (Hall & Hlen & consumed & -> & Hc).
  exists consumed. split; [done|]. intros i Hi.
  simpl in Hlen. rewrite length_replicate in Hlen.
  destruct (all_true_lookup _ i Hall) as (z & Hz & Hnz); [lia|].
  destruct (Hc i z Hz Hnz) as [Hinit|?]; [|done].
  simpl in Hinit. apply lookup_replicate in Hinit as [-> _]. done.
Qed.

End AggregatorFacts.

Lemma aggregator_stops_when_all_finished_witness :
  (∃ consumed,
     [(VALUE, Index 1); (PROGRESSION, Tick 0 0%Z); (ERROR, Index 0);
      (VALUE, Index 0)] = consumed ++ [(VALUE, Index 0)]
     ∧ ∀ i, i < 2 → ∃ m, m ∈ consumed ∧ finishes i m)
  ∧ (∀ (s : @aggregator ()) m s', m.1 ≠ VALUE → m.1 ≠ ERROR →
       handle_message 2 true [4; 4] [] s m = Ok s' →
       finished_workers s' = finished_workers s).
Proof.
  eapply (aggregator_stops_when_all_finished 2 true [4; 4] []
            _ (@empty_world ())).
  vm_compute. reflexivity.
Defined.

(** ** Progress injection *)

Section WrapFacts.
Context {Obj : Type}.

(** With a period that is not zero the instrumented function returns
    what the function returns, after one tick of the counter and at
    most one [PROGRESSION] message. *)
Lemma wrap_same_value (f : Obj → result Obj) index period x c :
  period ≠ 0%Z →
  ∃ sent,
    wrap true index period (user_function f) x c
    = (f x, {| pandarallel_counter := (pandarallel_counter c + 1)%Z;
               pandarallel_queue := pandarallel_queue c ++ sent |})
    ∧ (sent = []
       ∨ sent = [(PROGRESSION, Tick index (pandarallel_counter c))]
         ∧ (pandarallel_counter c `mod` period = 0)%Z).
Proof.
  intros Hp. unfold wrap, inliner_trick, to_add, user_function, io_lift.
  unfold mbind, io_bind, next_counter, py_mod.
  destruct (decide (period = 0%Z)); [done|]. unfold truthy.
  destruct (Z.eqb_spec (pandarallel_counter c `mod` period) 0); simpl.
  - eexists. split; [reflexivity|]. by right.
  - exists []. rewrite app_nil_r. split; [reflexivity|]. by left.
Qed.

(** Without a progress bar [wrap] gives the function back. *)
Lemma wrap_without_progress_bar index period (func : callable Obj) :
  wrap false index period func = func.
Proof. reflexivity. Qed.

(** A chunk of fewer than 100 elements has period [0], and the
    instrumented function then raises before it reaches the body. *)
Lemma wrap_short_chunk (func : callable Obj) chunk_length index x c :
  chunk_length < 100 →
  (wrap true index (period_of chunk_length) func x c).1
  = Raise ZeroDivisionError.
Proof.
  intros Hn. unfold period_of. rewrite Z.div_small by lia. reflexivity.
Qed.

(** C3, at a chunk of 50 elements: the function [wrap] builds for the
    first worker raises [ZeroDivisionError] on its first call, where
    the user function returns its argument. *)
Theorem wrap_raises_on_chunk_of_50 (x : Obj) :
  user_function Ok x (wrap_context []) = (Ok x, wrap_context [])
  ∧ wrap true 0 (period_of 50) (user_function Ok) x (wrap_context [])
    = (Raise ZeroDivisionError,
       {| pandarallel_counter := 1; pandarallel_queue := [] |}).
Proof. split; reflexivity. Qed.

End WrapFacts.

(** ** Names of the temporary files *)

Section TempFileFacts.
Context {Obj : Type}.
Implicit Types w : world Obj.

Lemma create_temp_files_names n : ∀ w fs w',
  create_temp_files n w = (fs, w') →
  ∀ f, f ∈ fs →
    ∃ token, name f = temp_name MEMORY_FS_ROOT PREFIX_INPUT SUFFIX token.
Proof.
  induction n as [|n IH]; intros w fs w'; simpl.
  - intros [= <- <-] f Hf. by apply elem_of_nil in Hf.
  - destruct (create_temp_files n _) as [fs1 w1] eqn:Hrec.
    intros [= <- <-] f [->|Hf]%elem_of_cons; [by eexists|eauto].
Qed.

Lemma temp_name_input_prefix token :
  String.prefix (MEMORY_FS_ROOT +:+ "/" +:+ PREFIX_INPUT)
    (temp_name MEMORY_FS_ROOT PREFIX_INPUT SUFFIX token) = true
  ∧ String.prefix (MEMORY_FS_ROOT +:+ "/" +:+ PREFIX_OUTPUT)
      (temp_name MEMORY_FS_ROOT PREFIX_INPUT SUFFIX token) = false.
Proof.
  split; [|reflexivity]. unfold temp_name. simpl.
  by destruct (pretty token +:+ SUFFIX).
Qed.

Context (len : Obj → nat) (picklable : Obj → bool).

(** C8: in shared-memory mode the output files get the prefix of the
    input files, [pandarallel_input_], and none gets
    [pandarallel_output_]. *)
Theorem output_files_named_as_input nb_workers progress_bar chunks meta
    func args w workers_args chunk_lengths input_files output_files w' :
  get_workers_args len picklable true nb_workers progress_bar chunks meta
    func args w
  = (Ok (workers_args, chunk_lengths, input_files, output_files), w') →
  ∀ f, f ∈ output_files →
    String.prefix (MEMORY_FS_ROOT +:+ "/" +:+ PREFIX_INPUT) (name f) = true
    ∧ String.prefix (MEMORY_FS_ROOT +:+ "/" +:+ PREFIX_OUTPUT) (name f)
      = false.
Proof.
  unfold get_workers_args, mbind, io_bind.
  destruct (create_temp_files nb_workers w) as [ifs w1] eqn:Hin.
  destruct (create_temp_files nb_workers w1) as [ofs w2] eqn:Hout.
  destruct (io_map _ (zip chunks ifs) w2) as [[cl|] w3]; [|done].
  intros [= <- <- <- <- <-] f Hf.
  destruct (create_temp_files_names _ _ _ _ Hout f Hf) as [token ->].
  apply temp_name_input_prefix.
Qed.

End TempFileFacts.

Lemma output_files_named_as_input_witness :
  String.prefix (MEMORY_FS_ROOT +:+ "/" +:+ PREFIX_INPUT)
    "/dev/shm/pandarallel_input_1.pickle" = true
  ∧ String.prefix (MEMORY_FS_ROOT +:+ "/" +:+ PREFIX_OUTPUT)
      "/dev/shm/pandarallel_input_1.pickle" = false.
Proof.
  refine (output_files_named_as_input (λ n : nat, n) (λ _, true) 1 false
            [7] 0 (user_function Ok) 0 empty_world _ _ _ _ _ _
            {| name := "/dev/shm/pandarallel_input_1.pickle" |} _).
  - vm_compute. reflexivity.
  - left.
Defined.

(** ** Without a progress bar *)

Section NoProgressBar.
Context {Obj : Type}.
Context (len : Obj → nat) (picklable : Obj → bool) (PyNone : Obj).
Implicit Types (st : @aggregator Obj).

Lemma handle_message_no_bars nb cl ifs st m st' :
  progress_bars st = None → progresses st = None →
  handle_message nb false cl ifs st m = Ok st' →
  progress_bars st' = None ∧ progresses st' = None.
Proof.
  destruct m as [ty msg]. unfold handle_message. intros Hb Hp.
  repeat case_decide; subst; intros Hm; destruct msg; try discriminate;
    rewrite ?Hp in Hm; simpl in Hm; result_cases; subst; simpl; auto.
Qed.

Lemma aggregator_loop_no_bars nb cl ifs queue : ∀ st,
  progress_bars st = None → progresses st = None →
  match aggregator_loop nb false cl ifs queue st with
  | Finished st' _ | Failed _ st' | Waiting st' => progress_bars st' = None
  end.
Proof.
  induction queue as [|m queue IH]; intros st Hb Hp; simpl;
    destruct (all (finished_workers st)); try done.
  destruct (handle_message _ _ _ _ st m) as [st1|] eqn:Hm; [|done].
  apply handle_message_no_bars in Hm as [??]; [by apply IH|done..].
Qed.

Lemma get_workers_result_no_bars use_memory_fs nb queue cl ifs ofs mr
    (w : world Obj) :
  (get_workers_result use_memory_fs nb false queue cl ifs ofs mr w).1.2
  = None.
Proof.
  unfold get_workers_result.
  pose proof (aggregator_loop_no_bars nb cl ifs queue
                (aggregator_init nb false cl w) eq_refl eq_refl) as Hl.
  destruct (aggregator_loop _ _ _ _ _ _) as [st rest|e st|st]; [|done..].
  destruct mr as [[results|e]|]; [|done..].
  destruct use_memory_fs; [|done].
  by destruct (mapM _ _).
Qed.

(** Without a progress bar the closure shows nothing. *)
Lemma closure_no_bars (op : parallel_op Obj) schedule data func args w :
  op_progress_bar op = false →
  out_bars (closure len picklable PyNone op schedule data func args w) = None.
Proof.
  intros Hpb. unfold closure.
  destruct (get_chunks _ _ _ _) as [chunks|]; [|done].
  destruct (op_get_worker_meta_args op data) as [wm|]; [|done].
  destruct (op_get_reduce_meta_args op data) as [rm|]; [|done].
  destruct (get_workers_args _ _ _ _ _ _ _ _ _ _) as [[p|] w1]; [|done].
  assert (out_bars (dispatch picklable PyNone op schedule p rm w1) = None) as Hd.
  { unfold dispatch. destruct p as [[[wa cl] ifs] ofs].
    case_decide; [done|]. rewrite Hpb.
    set (ps := map_async picklable PyNone (op_use_memory_fs op)
                 (worker (op_adapter op)) wa schedule w1).
    pose proof (get_workers_result_no_bars (op_use_memory_fs op)
      (op_nb_workers op) (pool_queue ps) cl ifs ofs
      (map_result_get (length wa) (pool_outcomes ps)) (pool_world ps)) as Hg.
    by destruct (get_workers_result _ _ _ _ _ _ _ _ _) as [[e b] w2]. }
  by destruct (out_end _).
Qed.

(** Without a progress bar every work item carries the user's
    function itself. *)
Lemma get_workers_args_no_injection use_memory_fs nb chunks meta func args
    (w : world Obj) p w' :
  get_workers_args len picklable use_memory_fs nb false chunks meta func
    args w = (Ok p, w') →
  ∀ wa, wa ∈ p.1.1.1 → item_function wa = func.
Proof.
  unfold get_workers_args. destruct use_memory_fs.
  - unfold mbind, io_bind.
    destruct (create_temp_files nb w) as [ifs w1].
    destruct (create_temp_files nb w1) as [ofs w2].
    destruct (io_map _ (zip chunks ifs) w2) as [[cl|] w3]; [|done].
    intros [= <- <-] wa. simpl.
    intros (i & [[fi fo] n] & -> & _)%elem_of_lookup_imap. done.
  - destruct (imap _ chunks) as [|x xs] eqn:Hi; [done|].
    intros [= <- <-] wa Hwa. change (wa ∈ (x :: xs).*1) in Hwa.
    rewrite <- Hi in Hwa.
    apply list_elem_of_fmap in Hwa as ([wa' n] & -> & Hwa).
    apply elem_of_lookup_imap in Hwa as (i & c & [= -> ->] & _).
    done.
Qed.

End NoProgressBar.

(** ** Initialization *)

Section InitializeFacts.
Context {Obj : Type}.
Context (len : Obj → nat) (picklable : Obj → bool) (PyNone : Obj).
Context (DF_Apply DF_ApplyMap S_Apply S_Map SR DFGB RGB : adapter Obj).
Context (SR_att2value DFGB_get_index : Obj → result Obj).
Context (empty_dict : Obj).

Local Abbreviation init :=
  (initialize DF_Apply DF_ApplyMap S_Apply S_Map SR DFGB RGB
     SR_att2value DFGB_get_index empty_dict).

(** Shared-memory mode asked for and not available: [SystemError],
    and nothing is registered. *)
Lemma initialize_forced_unavailable sys nb_workers progress_bar verbose :
  is_memory_fs_available sys = false →
  init sys nb_workers progress_bar verbose (Some true)
  = Raise (SystemError "Memory file system is not available").
Proof. intros Hno. unfold initialize. by rewrite Hno. Qed.

(** C7, where [/dev/shm] exists and is not writable:
    [is_memory_fs_available] answers [True], and [initialize] with
    [use_memory_fs=True] goes on in shared-memory mode. *)
Theorem memory_fs_available_ignores_write_access :
  path_exists read_only_shm MEMORY_FS_ROOT = true
  ∧ user_can_write read_only_shm MEMORY_FS_ROOT = false
  ∧ is_memory_fs_available read_only_shm = true
  ∧ ∃ printed reg,
      init read_only_shm 4 false 1 (Some true) = Ok (printed, reg)
      ∧ printed !! 1
        = Some "Pandarallel will use Memory file system to transfer data between the main process and workers.".
Proof. split_and!; [reflexivity..|]. eexists _, _. split; reflexivity. Qed.

(** C9: whatever [progress_bar] is, [initialize] registers
    [DataFrameGroupBy.parallel_apply] with [progress_bar] false, so
    that its work items carry the user's function untouched and its
    calls show no progress bar; every other operation is registered
    with the [progress_bar] given. *)
Theorem groupby_apply_never_reports sys nb_workers progress_bar verbose
    use_memory_fs printed reg :
  init sys nb_workers progress_bar verbose use_memory_fs
  = Ok (printed, reg) →
  (∃ op, reg !! "DataFrameGroupBy.parallel_apply" = Some op
     ∧ op_progress_bar op = false
     ∧ (∀ index period (func : callable Obj),
          wrap (op_progress_bar op) index period func = func)
     ∧ (∀ chunks meta func args (w : world Obj) p w',
          get_workers_args len picklable (op_use_memory_fs op)
            (op_nb_workers op) (op_progress_bar op) chunks meta func args w
          = (Ok p, w') →
          ∀ wa, wa ∈ p.1.1.1 → item_function wa = func)
     ∧ (∀ schedule data func args w,
          out_bars (closure len picklable PyNone op schedule data func
                      args w) = None))
  ∧ (∀ name op, reg !! name = Some op →
       name ≠ "DataFrameGroupBy.parallel_apply" →
       op_progress_bar op = progress_bar).
Proof.
  unfold initialize. destruct (_ && _); [done|]. intros [= <- <-]. split.
  - eexists. split; [reflexivity|]. split_and!; [done..| |].
    + intros ???????. by apply get_workers_args_no_injection.
    + intros. by apply closure_no_bars.
  - intros name op Hop Hname.
    repeat (rewrite lookup_insert in Hop; case_decide;
            [first [congruence | injection Hop as <-; reflexivity]|]).
    by rewrite lookup_empty in Hop.
Qed.

End InitializeFacts.

Lemma groupby_apply_never_reports_witness :
  ∃ printed reg,
    initialize Example.series Example.series Example.series Example.series
      Example.series Example.series Example.series
      (λ _, Ok Example.ONone) (λ _, Ok Example.ONone) Example.ONone
      read_only_shm 4 true 1 None = Ok (printed, reg)
    ∧ (∃ op, reg !! "DataFrameGroupBy.parallel_apply" = Some op
         ∧ op_progress_bar op = false)
    ∧ (∀ name op, reg !! name = Some op →
         name ≠ "DataFrameGroupBy.parallel_apply" →
         op_progress_bar op = true).
Proof.
  eexists _, _. split; [reflexivity|].
  destruct (groupby_apply_never_reports Example.obj_len
              Example.obj_picklable Example.ONone
              Example.series Example.series Example.series Example.series
              Example.series Example.series Example.series
              (λ _, Ok Example.ONone) (λ _, Ok Example.ONone) Example.ONone
              read_only_shm 4 true 1 None _ _ eq_refl)
    as [(op & Hop & Hpb & _) Hothers].
  split; [exists op; split; [exact Hop|exact Hpb]|exact Hothers].
Defined.

(** ** Temporary files on the failure paths *)

(** C4, at a dataset whose second slice cannot be pickled: the call
    raises from [get_workers_args], before the [try] block, and the
    four temporary files it created are still there when it returns.
    A failure of the user's function inside the [try] block, and a
    call that succeeds, leave none. *)
Theorem temp_files_left_when_pickling_fails :
  let leaked :=
    Example.call_op (Example.series_apply 2 true false) [0; 1]
      (Example.OList [Example.OInt 1; Example.OLock]) Example.square in
  let failed :=
    Example.call_op (Example.series_apply 2 true false) [1; 0]
      (Example.OList [Example.OInt 1; Example.OInt 7]) Example.fails_on_7 in
  let passed :=
    Example.call_op (Example.series_apply 2 true false) [1; 0]
      (Example.OList [Example.OInt 1; Example.OInt 7]) Example.square in
  out_end leaked = Raises PicklingError
  ∧ files (out_world leaked) !! "/dev/shm/pandarallel_input_0.pickle"
    = Some (Some (Example.OList [Example.OInt 1]))
  ∧ files (out_world leaked) !! "/dev/shm/pandarallel_input_1.pickle"
    = Some None
  ∧ files (out_world leaked) !! "/dev/shm/pandarallel_input_2.pickle"
    = Some None
  ∧ files (out_world leaked) !! "/dev/shm/pandarallel_input_3.pickle"
    = Some None
  ∧ out_end failed = Raises (UserError 7)
  ∧ files (out_world failed) = ∅
  ∧ out_end passed = Returns (Example.OList [Example.OInt 1; Example.OInt 49])
  ∧ files (out_world passed) = ∅.
Proof. vm_compute. split_and!; reflexivity. Qed.

(** ** The instrumentor and the heap *)

Section InstrumentorHeap.
Context `{SetOrder}.
Implicit Types (h : heap) (f : function).

Lemma FunctionType_spec c g n d cl h a h' :
  FunctionType c g n d cl h = (Ok a, h') →
  h !! a = None ∧ is_Some (h' !! a)
  ∧ ∀ b fb, h !! b = Some fb → h' !! b = Some fb.
Proof.
  unfold FunctionType. intros [= <- <-].
  assert (h !! fresh (dom h) = None) as Hfresh.
  { apply not_elem_of_dom. apply is_fresh. }
  split_and!; [done|by rewrite lookup_insert_eq|].
  intros b fb Hb. rewrite lookup_insert_ne; [done|]. congruence.
Qed.

Lemma copy_func_spec func name h r h' :
  copy_func func name h = (r, h') →
  (∀ b fb, h !! b = Some fb → h' !! b = Some fb)
  ∧ ∀ a, r = Ok a → h !! a = None ∧ is_Some (h' !! a).
Proof.
  unfold copy_func, mbind, io_bind, deref.
  destruct (h !! func) as [f|] eqn:Hf; [|by intros [= <- <-]].
  destruct (FunctionType _ _ _ _ _ h) as [[a|] h1] eqn:HF;
    [|discriminate HF].
  apply FunctionType_spec in HF as (Hnew & Hin & Hold).
  unfold io_modify, mret, io_ret. intros [= <- <-]. split.
  - intros b fb Hb. rewrite lookup_alter_ne; [eauto|]. congruence.
  - intros ? [= <-]. split; [done|].
    rewrite lookup_alter_eq. by apply fmap_is_Some.
Qed.

(** C10: [inlined_partial] leaves every function object that exists
    as it is, [func] among them, whether it returns or raises; what it
    returns is a new object. *)
Theorem inlined_partial_leaves_functions_unchanged h func name
    arg_name2value f :
  h !! func = Some f →
  (inlined_partial func name arg_name2value h).2 !! func = Some f
  ∧ (∀ b fb, h !! b = Some fb →
       (inlined_partial func name arg_name2value h).2 !! b = Some fb)
  ∧ (∀ g, (inlined_partial func name arg_name2value h).1 = Ok g →
       h !! g = None ∧ g ≠ func
       ∧ is_Some ((inlined_partial func name arg_name2value h).2 !! g)).
Proof.
  intros Hf.
  enough ((∀ b fb, h !! b = Some fb →
             (inlined_partial func name arg_name2value h).2 !! b = Some fb)
          ∧ (∀ g, (inlined_partial func name arg_name2value h).1 = Ok g →
               h !! g = None
               ∧ is_Some ((inlined_partial func name arg_name2value h).2
                            !! g))) as [Hold Hnew].
  { split_and!; [eauto|done|]. intros g Hg.
    destruct (Hnew g Hg) as [Hn Hs]. split_and!; [done| |done]. congruence. }
  unfold inlined_partial, mbind, io_bind, deref, io_lift. rewrite Hf.
  destruct (check_names f _) as [[]|]; [|done].
  destruct (rewrite_code _ _) as [r|]; [|done].
  destruct (copy_func func name h) as [[a|] h1] eqn:Hc;
    apply copy_func_spec in Hc as [Hold Hnew]; [|done].
  destruct (Hnew a eq_refl) as [Ha [nf Hnf]]. rewrite Hnf.
  destruct (CodeType _ _ _ _ _ _ _ _ _ _ _ _ _ _ _) as [c|]; [|done].
  unfold io_modify, mret, io_ret. simpl. split.
  - intros b fb Hb. rewrite lookup_alter_ne; [eauto|]. congruence.
  - intros ? [= <-]. split; [done|]. rewrite lookup_alter_eq, Hnf. by eexists.
Qed.

(** A bound name outside [co_varnames]: [KeyError], and the heap is
    as before. *)
Lemma check_names_unknown f names x :
  x ∈ names → x ∉ co_varnames (__code__ f) →
  ∃ y, check_names f names
       = Raise (KeyError (y +:+ " is not an argument of "
                            +:+ str_function f))
       ∧ y ∈ names ∧ y ∉ co_varnames (__code__ f).
Proof.
  induction names as [|y names IH]; intros Hx Hnot; [by inv Hx|].
  simpl. case_decide as Hy.
  - inv Hx; [done|]. destruct IH as (z & -> & ? & ?); [done..|].
    exists z. split_and!; [done|by right|done].
  - exists y. split_and!; [done|by left|done].
Qed.

Lemma inlined_partial_unknown_name h func name arg_name2value f x :
  h !! func = Some f →
  x ∈ arg_name2value.*1 → x ∉ co_varnames (__code__ f) →
  ∃ y, inlined_partial func name arg_name2value h
       = (Raise (KeyError (y +:+ " is not an argument of "
                             +:+ str_function f)), h)
       ∧ y ∈ arg_name2value.*1 ∧ y ∉ co_varnames (__code__ f).
Proof.
  intros Hf Hx Hnot.
  destruct (check_names_unknown f _ x Hx Hnot) as (y & Hy & ? & ?).
  exists y. split; [|done].
  unfold inlined_partial, mbind, io_bind, deref, io_lift.
  by rewrite Hf, Hy.
Qed.

End InstrumentorHeap.

Lemma inlined_partial_leaves_functions_unchanged_witness :
  (@inlined_partial elements_order 0 (Some "g") [("a", VInt 5)]
     {[ 0 := Sample.f ]}).2 !! 0 = Some Sample.f
  ∧ (@inlined_partial elements_order 0 None [("a", VInt 5)]
       {[ 0 := Sample.f ]}).1
    = Raise (TypeError "argument 11 must be str, not None")
  ∧ (@inlined_partial elements_order 0 None [("a", VInt 5)]
       {[ 0 := Sample.f ]}).2 !! 0 = Some Sample.f.
Proof.
  split_and!.
  - refine (proj1 (@inlined_partial_leaves_functions_unchanged
                     elements_order {[ 0 := Sample.f ]} 0 (Some "g")
                     [("a", VInt 5)] Sample.f _)).
    vm_compute. reflexivity.
  - vm_compute. reflexivity.
  - refine (proj1 (@inlined_partial_leaves_functions_unchanged
                     elements_order {[ 0 := Sample.f ]} 0 None
                     [("a", VInt 5)] Sample.f _)).
    vm_compute. reflexivity.
Defined.

(** C2, at [def f(a): x = a + 1; return x]: binding the name [z],
    which [f] does not have, raises [KeyError]; binding [x], a local
    variable of [f] and not a parameter, raises nothing and returns a
    rewritten function. *)
Theorem local_variable_bound_without_error :
  (@inlined_partial elements_order 0 (Some "g") [("z", VInt 1)]
     {[ 0 := Sample.f ]})
  = (Raise (KeyError "z is not an argument of <function f>"),
     {[ 0 := Sample.f ]})
  ∧ ("x" ∉ parameters Sample.code_f)
  ∧ ∃ g h' new_func,
      (@inlined_partial elements_order 0 (Some "g") [("x", VInt 5)]
         {[ 0 := Sample.f ]}) = (Ok g, h')
      ∧ h' !! g = Some new_func
      ∧ co_varnames (__code__ new_func) = ["a"]
      ∧ co_argcount (__code__ new_func) = 0
      ∧ co_code (__code__ new_func)
        = [124; 0; 100; 1; 23; 0; 125; 1; 100; 2; 83; 0]%Z.
Proof.
  split_and!.
  - vm_compute. reflexivity.
  - intros Hx. change ("x" ∈ ["a"]) in Hx.
    apply list_elem_of_singleton in Hx. discriminate Hx.
  - eexists _, _, _. split_and!; [vm_compute; reflexivity|..];
      vm_compute; reflexivity.
Qed.

(** ** The order of the results *)

Lemma length_append s1 s2 :
  String.length (s1 +:+ s2) = String.length s1 + String.length s2.
Proof. induction s1 as [|a s1 IH]; simpl; [done|by rewrite IH]. Qed.

Lemma append_inj_r s : ∀ s1 s2, s1 +:+ s = s2 +:+ s → s1 = s2.
Proof.
  assert (∀ a s1, String a (s1 +:+ s) ≠ s) as Hlen.
  { intros a s1 Heq. apply (f_equal String.length) in Heq.
    simpl in Heq. rewrite length_append in Heq. lia. }
  induction s1 as [|a s1 IH]; intros [|b s2]; simpl; intros Heq.
  - done.
  - symmetry in Heq. by apply Hlen in Heq.
  - by apply Hlen in Heq.
  - injection Heq as -> Heq. f_equal. by apply IH.
Qed.

Lemma temp_name_inj dir pre suf : Inj (=) (=) (temp_name dir pre suf).
Proof.
  intros t1 t2 Heq. unfold temp_name in Heq.
  do 3 apply String.app_inj in Heq.
  apply append_inj_r in Heq. by apply pretty_nat_inj in Heq.
Qed.

Lemma foldl_preserves {A B} (P : A → Prop) (f : A → B → A) l : ∀ a,
  P a → (∀ a x, P a → P (f a x)) → P (foldl f a l).
Proof. induction l; simpl; auto. Qed.

Section TempFileWorld.
Context {Obj : Type}.
Implicit Types w : world Obj.

Lemma create_temp_files_spec n : ∀ w fs w',
  create_temp_files n w = (fs, w') →
  name <$> fs
  = temp_name MEMORY_FS_ROOT PREFIX_INPUT SUFFIX <$> seq (next_token w) n
  ∧ next_token w' = next_token w + n
  ∧ ∀ x, files w' !! x
         = if decide (x ∈ name <$> fs) then Some None else files w !! x.
Proof.
  induction n as [|n IH]; intros w fs w'; simpl.
  - intros [= <- <-]. split_and!; [done|lia|]. intros x.
    by rewrite decide_False by apply not_elem_of_nil.
  - destruct (create_temp_files n _) as [fs1 w1] eqn:Hrec.
    intros [= <- <-]. apply IH in Hrec as (Hnames & Htok & Hfiles).
    rewrite fmap_cons, Hnames. cbn [next_token files name] in *.
    split_and!; [done|lia|]. intros x. rewrite Hfiles, <- Hnames.
    destruct (decide (x = temp_name MEMORY_FS_ROOT PREFIX_INPUT SUFFIX
                             (next_token w))) as [->|Hne].
    + rewrite (decide_True (P := _ ∈ _ :: _)) by left.
      case_decide; [done|]. by rewrite lookup_insert_eq.
    + rewrite lookup_insert_ne by done.
      destruct (decide (x ∈ name <$> fs1)) as [Hin|Hin].
      * by rewrite decide_True by by right.
      * rewrite decide_False; [done|].
        by intros [?|?]%elem_of_cons.
Qed.

Lemma close_all_lookup fs : ∀ w x,
  files (close_all fs w) !! x
  = if decide (x ∈ name <$> fs) then None else files w !! x.
Proof.
  unfold close_all.
  induction fs as [|f fs IH]; intros w x.
  - by rewrite decide_False by apply not_elem_of_nil.
  - rewrite fmap_cons. cbn [foldl]. rewrite IH. cbn [close files].
    destruct (decide (x = name f)) as [->|Hne].
    + rewrite (decide_True (P := _ ∈ _ :: _)) by left.
      case_decide; [done|]. by rewrite lookup_delete_eq.
    + rewrite lookup_delete_ne by done.
      destruct (decide (x ∈ name <$> fs)) as [Hin|Hin].
      * by rewrite decide_True by by right.
      * rewrite decide_False; [done|].
        by intros [?|?]%elem_of_cons.
Qed.

End TempFileWorld.

Lemma mapM_result_Ok {A B} (f : A → result B) l : ∀ vs,
  mapM f l = Ok vs → Forall2 (λ x v, f x = Ok v) l vs.
Proof.
  induction l as [|x l IH]; intros vs; cbn [mapM].
  - intros [= <-]. constructor.
  - unfold mbind, result_bind at 1. destruct (f x) as [y|] eqn:Hx; [|done].
    unfold result_bind. destruct (mapM f l) as [ys|]; [|done].
    intros [= <-]. constructor; auto.
Qed.

Lemma first_failure_None {Obj} (outcomes : list (nat * result Obj)) :
  first_failure outcomes = None →
  ∀ i r, (i, r) ∈ outcomes → ∃ v, r = Ok v.
Proof.
  unfold first_failure. intros Hff i r Hin.
  destruct (list_find _ outcomes) as [[k [j [v|e]]]|] eqn:Hfind.
  - apply list_find_Some in Hfind as (_ & Hv & _). discriminate Hv.
  - discriminate Hff.
  - apply list_find_None in Hfind.
    rewrite Forall_forall in Hfind. specialize (Hfind _ Hin).
    destruct r as [v|e]; [by exists v|]. by destruct Hfind.
Qed.

Lemma outcome_of_Some {Obj} (outcomes : list (nat * result Obj)) i r :
  outcome_of outcomes i = Some r → (i, r) ∈ outcomes.
Proof.
  unfold outcome_of. intros ([k [j r']] & Hfind & ->)%fmap_Some.
  apply list_find_Some in Hfind as (Hk & Hj & _). simpl in *. subst j.
  by eapply list_elem_of_lookup_2.
Qed.

(** [map_result.get()] gives the value of item [i] at position [i]. *)
Lemma map_result_get_Ok {Obj} n (outcomes : list (nat * result Obj)) results :
  map_result_get n outcomes = Some (Ok results) →
  length results = n
  ∧ ∀ i r, results !! i = Some r → (i, Ok r) ∈ outcomes.
Proof.
  unfold map_result_get. intros (rs & Hrs & Hget)%bind_Some.
  destruct (first_failure outcomes) eqn:Hff; [done|].
  injection Hget as <-. apply mapM_Some in Hrs.
  assert (Forall2 (λ i r, (i, Ok r) ∈ outcomes) (seq 0 n)
            (omap (λ r, match r with Ok v => Some v | Raise _ => None end)
               rs)) as Hall.
  { induction Hrs as [|i r l rs Hi _ IH]; [constructor|].
    apply outcome_of_Some in Hi.
    destruct (first_failure_None _ Hff _ _ Hi) as [v ->].
    cbn [omap]. by constructor. }
  split.
  - apply Forall2_length in Hall. by rewrite length_seq in Hall.
  - intros i r Hr.
    destruct (Forall2_lookup_r _ _ _ _ _ Hall Hr) as (j & Hj & Hin).
    apply lookup_seq in Hj as [-> _]. done.
Qed.

Lemma zip_names {A} (l : list A) : ∀ k : list tmpfile,
  (∀ x, x ∈ (λ cf : A * tmpfile, name cf.2) <$> zip l k → x ∈ name <$> k)
  ∧ (NoDup (name <$> k) →
     NoDup ((λ cf : A * tmpfile, name cf.2) <$> zip l k)).
Proof.
  induction l as [|a l IH]; intros [|f k]; simpl;
    try (split; [by intros ? ?%elem_of_nil|intros; constructor]).
  destruct (IH k) as [Hin Hnd]. split.
  - intros x [->|Hx]%elem_of_cons; [left|right; by apply Hin].
  - intros [Hf Hk]%NoDup_cons. apply NoDup_cons. split; [|by apply Hnd].
    intros Hx. by apply Hf, Hin.
Qed.

Section ResultOrder.
Context {Obj : Type}.
Context (len : Obj → nat) (picklable : Obj → bool) (PyNone : Obj).
Implicit Types (w : world Obj) (st : @aggregator Obj).

Lemma dump_and_get_lenght_Ok chunk f w n w' :
  dump_and_get_lenght len picklable (chunk, f) w = (Ok n, w') →
  n = len chunk ∧ files w' = <[name f := Some chunk]> (files w).
Proof.
  unfold dump_and_get_lenght, dump_path, mbind, io_bind, mret, io_ret.
  destruct (picklable chunk); [|done]. by intros [= <- <-].
Qed.

(** Pickling the partitions writes partition [j] to input file [j]
    and touches no other file. *)
Lemma io_map_dump (l : list (Obj * tmpfile)) : ∀ w cl w',
  io_map (dump_and_get_lenght len picklable) l w = (Ok cl, w') →
  cl = (λ cf, len cf.1) <$> l
  ∧ (∀ x, x ∉ (λ cf, name cf.2) <$> l → files w' !! x = files w !! x)
  ∧ (NoDup ((λ cf, name cf.2) <$> l) →
     ∀ cf, cf ∈ l → files w' !! name cf.2 = Some (Some cf.1)).
Proof.
  induction l as [|[chunk f] l IH]; intros w cl w'; cbn [io_map].
  - intros [= <- <-]. split_and!; [done..|].
    intros _ cf Hcf. by apply elem_of_nil in Hcf.
  - unfold mbind, io_bind, mret, io_ret.
    destruct (dump_and_get_lenght _ _ _ w) as [[n|] w0] eqn:Hd; [|done].
    apply dump_and_get_lenght_Ok in Hd as [-> Hw0].
    destruct (io_map _ l w0) as [[cl1|] w1] eqn:Hrec; [|done].
    intros [= <- <-]. apply IH in Hrec as (-> & Hout & Hin).
    split_and!; [done| |].
    + intros x [Hx1 Hx2]%not_elem_of_cons. rewrite Hout, Hw0 by done.
      by rewrite lookup_insert_ne.
    + rewrite fmap_cons. intros [Hf Hnd]%NoDup_cons cf [->|Hcf]%elem_of_cons.
      * rewrite Hout, Hw0 by done. by rewrite lookup_insert_eq.
      * by apply Hin.
Qed.

Lemma handle_message_world nb show cl ifs st m st' :
  handle_message nb show cl ifs st m = Ok st' →
  ∀ x, x ∉ name <$> ifs →
    files (agg_world st') !! x = files (agg_world st) !! x.
Proof.
  destruct m as [ty msg]. unfold handle_message.
  repeat case_decide; subst; intros Hm; destruct msg; try discriminate;
    result_cases;
    repeat match goal with
    | H : (if ?b then _ else _) = Ok _ |- _ => destruct b
    end; result_cases; subst; try done.
  intros x Hx. cbn [agg_world close files].
  rewrite lookup_delete_ne; [done|]. intros <-. apply Hx.
  apply list_elem_of_fmap_2.
  match goal with H : list_getitem _ _ = Ok _ |- _ =>
    apply list_getitem_Ok in H; by eapply list_elem_of_lookup_2 end.
Qed.

Lemma aggregator_loop_world nb show cl ifs queue : ∀ st st' rest,
  aggregator_loop nb show cl ifs queue st = Finished st' rest →
  ∀ x, x ∉ name <$> ifs →
    files (agg_world st') !! x = files (agg_world st) !! x.
Proof.
  induction queue as [|m queue IH]; intros st st' rest; simpl.
  - destruct (all (finished_workers st)); [|done]. by intros [= <- <-].
  - destruct (all (finished_workers st)); [by intros [= <- <-]|].
    destruct (handle_message _ _ _ _ st m) as [st1|] eqn:Hm; [|done].
    intros Hloop x Hx. rewrite (IH _ _ _ Hloop x Hx).
    by eapply handle_message_world.
Qed.

Section WorkItems.
Context (function : Obj → nat → Obj → callable Obj → Obj → io context Obj).

(** A work item in shared-memory mode leaves the files as they are,
    or writes its output file: with its result on its partition, or
    with nothing when the result cannot be pickled. *)
Lemma prepare_worker_shm pin pout i wm df args w q chunk :
  files w !! pin = Some (Some chunk) →
  let p' := (prepare_worker picklable PyNone true function
               (ShmArgs pin pout i wm df args)
               {| proc_world := w; proc_context := wrap_context q |}).2 in
  files (proc_world p') = files w
  ∨ files (proc_world p') = <[pout := None]> (files w)
  ∨ ∃ res q',
      (function chunk i wm df args (wrap_context q')).1 = Ok res
      ∧ files (proc_world p') = <[pout := Some res]> (files w).
Proof.
  intros Hin. cbn [prepare_worker].
  unfold on_exception, mbind, io_bind, load_path, in_context, queue_put,
    io_modify, dump_path, mret, io_ret.
  cbn [proc_world]. rewrite Hin.
  cbn [proc_world proc_context pandarallel_counter pandarallel_queue
       wrap_context].
  change {| pandarallel_counter := 0;
            pandarallel_queue := q ++ [(INPUT_FILE_READ, Index i)] |}
    with (wrap_context (q ++ [(INPUT_FILE_READ, Index i)])).
  destruct (function chunk i wm df args _) as [[res|e] c] eqn:Hf;
    cbn [proc_world proc_context]; [|by left].
  destruct (picklable res); cbn; [|by right; left].
  right; right. exists res, (q ++ [(INPUT_FILE_READ, Index i)]).
  by rewrite Hf.
Qed.

Lemma prepare_worker_direct chunk i wm df args w q res :
  (prepare_worker picklable PyNone false function
     (DirectArgs chunk i wm df args)
     {| proc_world := w; proc_context := wrap_context q |}).1 = Ok res →
  (function chunk i wm df args (wrap_context q)).1 = Ok res.
Proof.
  cbn [prepare_worker].
  unfold on_exception, mbind, io_bind, in_context, queue_put,
    io_modify, mret, io_ret.
  cbn [proc_world proc_context].
  by destruct (function chunk i wm df args _) as [[r|e] c].
Qed.

Context (nb : nat) (pb : bool) (chunks : list Obj) (wm : Obj)
  (func : callable Obj) (args : Obj).

Lemma get_workers_args_shm w was cl ifs ofs w' :
  get_workers_args len picklable true nb pb chunks wm func args w
  = (Ok (was, cl, ifs, ofs), w') →
  length ofs = nb
  ∧ NoDup (name <$> ifs ++ ofs)
  ∧ (∀ i wa, was !! i = Some wa →
       ∃ fi fo chunk, ifs !! i = Some fi ∧ ofs !! i = Some fo
         ∧ chunks !! i = Some chunk
         ∧ wa = ShmArgs (name fi) (name fo) i wm
                (wrap pb i (period_of (len chunk)) func) args)
  ∧ (∀ i fi chunk, ifs !! i = Some fi → chunks !! i = Some chunk →
       files w' !! name fi = Some (Some chunk))
  ∧ (∀ fo, fo ∈ ofs → files w' !! name fo = Some None).
Proof.
  unfold get_workers_args, mbind, io_bind, mret, io_ret.
  destruct (create_temp_files nb w) as [ifs0 w1] eqn:Hin.
  destruct (create_temp_files nb w1) as [ofs0 w2] eqn:Hout.
  destruct (io_map _ (zip chunks ifs0) w2) as [[cl0|] w3] eqn:Hdump; [|done].
  intros [= <- <- <- <- <-].
  apply create_temp_files_spec in Hin as (Hn1 & Ht1 & Hf1).
  apply create_temp_files_spec in Hout as (Hn2 & Ht2 & Hf2).
  apply io_map_dump in Hdump as (-> & Hother & Hdumped).
  assert (NoDup (name <$> ifs0 ++ ofs0)) as Hnd.
  { rewrite fmap_app, Hn1, Hn2, Ht1, <- fmap_app, <- seq_app.
    apply (@NoDup_fmap_2 _ _ _ (temp_name_inj _ _ _)), NoDup_seq. }
  pose proof Hnd as Hnd'. rewrite fmap_app in Hnd'.
  apply NoDup_app in Hnd' as (Hndi & Hdisj & Hndo).
  split_and!; [|done|..].
  - apply (f_equal length) in Hn2.
    by rewrite !length_fmap, length_seq in Hn2.
  - intros i wa Hwa. rewrite list_lookup_imap in Hwa.
    apply fmap_Some in Hwa as ([[fi fo] n] & Hz & ->).
    rewrite lookup_zip_with in Hz.
    apply bind_Some in Hz as ([fi' fo'] & Hz1 & Hz2).
    apply bind_Some in Hz2 as (n' & Hn & [= -> -> ->]).
    rewrite lookup_zip_with in Hz1.
    apply bind_Some in Hz1 as (fi' & Hfi & Hz1).
    apply bind_Some in Hz1 as (fo' & Hfo & [= -> ->]).
    rewrite list_lookup_fmap in Hn.
    apply fmap_Some in Hn as ([chunk fi'] & Hz & ->).
    rewrite lookup_zip_with in Hz.
    apply bind_Some in Hz as (c & Hc & Hz).
    apply bind_Some in Hz as (fi'' & _ & [= -> ->]).
    by exists fi, fo, chunk.
  - intros i fi chunk Hfi Hchunk.
    apply (Hdumped (proj2 (zip_names chunks ifs0) Hndi) (chunk, fi)).
    apply (list_elem_of_lookup_2 _ i). rewrite lookup_zip_with.
    by rewrite Hchunk, Hfi.
  - intros fo Hfo. rewrite Hother, Hf2.
    + rewrite decide_True; [done|]. by apply list_elem_of_fmap_2.
    + intros Hx%(proj1 (zip_names chunks ifs0)).
      by apply (Hdisj _ Hx), list_elem_of_fmap_2.
Qed.

Lemma get_workers_args_direct w was cl ifs ofs w' :
  get_workers_args len picklable false nb pb chunks wm func args w
  = (Ok (was, cl, ifs, ofs), w') →
  length was = length chunks
  ∧ ∀ i wa, was !! i = Some wa →
      ∃ chunk, chunks !! i = Some chunk
        ∧ wa = DirectArgs chunk i wm
                 (wrap pb i (period_of (len chunk)) func) args.
Proof.
  unfold get_workers_args.
  destruct (imap _ chunks) as [|pr prs] eqn:Hpairs; [done|].
  rewrite <- Hpairs. clear Hpairs. unfold mret, io_ret.
  intros [= <- <- <- <- <-]. split.
  - by rewrite length_fmap, length_imap.
  - intros i wa Hwa. rewrite list_lookup_fmap, list_lookup_imap in Hwa.
    apply fmap_Some in Hwa as (pr' & Hpr & ->).
    apply fmap_Some in Hpr as (chunk & Hchunk & ->). by exists chunk.
Qed.

(** In shared-memory mode an output file holds nothing, or a result
    of the worker on the partition of the same index, whatever the
    order in which the work items run. *)
Lemma map_async_shm was ifs ofs schedule w :
  NoDup (name <$> ifs ++ ofs) →
  (∀ i wa, was !! i = Some wa →
     ∃ fi fo chunk, ifs !! i = Some fi ∧ ofs !! i = Some fo
       ∧ chunks !! i = Some chunk
       ∧ wa = ShmArgs (name fi) (name fo) i wm
                (wrap pb i (period_of (len chunk)) func) args) →
  (∀ i fi chunk, ifs !! i = Some fi → chunks !! i = Some chunk →
     files w !! name fi = Some (Some chunk)) →
  (∀ fo, fo ∈ ofs → files w !! name fo = Some None) →
  ∀ i fo r, ofs !! i = Some fo →
    files (pool_world (map_async picklable PyNone true function was
                         schedule w)) !! name fo = Some (Some r) →
    ∃ chunk q, chunks !! i = Some chunk
      ∧ (function chunk i wm (wrap pb i (period_of (len chunk)) func) args
           (wrap_context q)).1 = Ok r.
Proof.
  intros Hnd Hwas Hifs Hofs.
  rewrite fmap_app in Hnd. apply NoDup_app in Hnd as (Hndi & Hdisj & Hndo).
  unfold map_async.
  cut ((λ ps,
          (∀ i fi chunk, ifs !! i = Some fi → chunks !! i = Some chunk →
             files (pool_world ps) !! name fi = Some (Some chunk))
          ∧ (∀ i fo r, ofs !! i = Some fo →
               files (pool_world ps) !! name fo = Some (Some r) →
               ∃ chunk q, chunks !! i = Some chunk
                 ∧ (function chunk i wm
                      (wrap pb i (period_of (len chunk)) func) args
                      (wrap_context q)).1 = Ok r))
         (foldl (run_item picklable PyNone true function was)
            {| pool_world := w; pool_queue := []; pool_outcomes := [] |}
            schedule)); [by intros [_ ?]|].
  apply foldl_preserves.
  - split; [done|]. intros i fo r Hfo Hr. cbn [pool_world] in Hr.
    rewrite Hofs in Hr by by eapply list_elem_of_lookup_2. discriminate Hr.
  - intros ps i [H1 H2]. unfold run_item.
    destruct (was !! i) as [wa|] eqn:Hwa; [|done].
    destruct (Hwas _ _ Hwa) as (fi & fo & chunk & Hfi & Hfo & Hchunk & ->).
    pose proof (prepare_worker_shm (name fi) (name fo) i wm
                  (wrap pb i (period_of (len chunk)) func) args
                  (pool_world ps) (pool_queue ps) chunk
                  (H1 _ _ _ Hfi Hchunk)) as Hstep.
    destruct (prepare_worker _ _ _ _ _ _) as [r p]. cbn [snd] in Hstep.
    cbn [pool_world].
    assert (∀ j fj, ifs !! j = Some fj → name fo ≠ name fj) as Hne.
    { intros j fj Hfj Heq. apply (Hdisj (name fj)).
      - apply list_elem_of_fmap_2. by eapply list_elem_of_lookup_2.
      - rewrite <- Heq. apply list_elem_of_fmap_2.
        by eapply list_elem_of_lookup_2. }
    assert (∀ j fj, ofs !! j = Some fj → name fj = name fo → j = i) as Heq.
    { intros j fj Hfj Hn. apply (NoDup_lookup _ _ _ (name fo) Hndo).
      - by rewrite list_lookup_fmap, Hfj, <- Hn.
      - by rewrite list_lookup_fmap, Hfo. }
    destruct Hstep as [->|[->|(res & q & Hres & ->)]].
    + done.
    + split.
      * intros j fj c Hfj Hc. rewrite lookup_insert_ne by by eapply Hne.
        by eapply H1.
      * intros j fj r' Hfj. destruct (decide (name fj = name fo)) as [Hn|Hn].
        -- rewrite Hn, lookup_insert_eq. discriminate.
        -- rewrite lookup_insert_ne by done. by apply H2.
    + split.
      * intros j fj c Hfj Hc. rewrite lookup_insert_ne by by eapply Hne.
        by eapply H1.
      * intros j fj r' Hfj. destruct (decide (name fj = name fo)) as [Hn|Hn].
        -- rewrite Hn, lookup_insert_eq. intros [= <-].
           rewrite (Heq _ _ Hfj Hn). by exists chunk, q.
        -- rewrite lookup_insert_ne by done. by apply H2.
Qed.

(** In direct mode every value the pool holds for item [i] is a
    result of the worker on partition [i]. *)
Lemma map_async_direct was schedule w :
  (∀ i wa, was !! i = Some wa →
     ∃ chunk, chunks !! i = Some chunk
       ∧ wa = DirectArgs chunk i wm
                (wrap pb i (period_of (len chunk)) func) args) →
  ∀ i r,
    (i, Ok r) ∈ pool_outcomes (map_async picklable PyNone false function
                                 was schedule w) →
    ∃ chunk q, chunks !! i = Some chunk
      ∧ (function chunk i wm (wrap pb i (period_of (len chunk)) func) args
           (wrap_context q)).1 = Ok r.
Proof.
  intros Hwas. unfold map_async.
  apply (foldl_preserves (λ ps, ∀ i r, (i, Ok r) ∈ pool_outcomes ps →
    ∃ chunk q, chunks !! i = Some chunk
      ∧ (function chunk i wm (wrap pb i (period_of (len chunk)) func) args
           (wrap_context q)).1 = Ok r)).
  - intros i r Hin. by apply elem_of_nil in Hin.
  - intros ps j IH. unfold run_item.
    destruct (was !! j) as [wa|] eqn:Hwa; [|done].
    destruct (Hwas _ _ Hwa) as (chunk & Hchunk & ->).
    destruct (prepare_worker _ _ _ _ _ _) as [r0 p] eqn:Hpw.
    cbn [pool_outcomes]. intros i r [Hin|Hin]%elem_of_app; [by apply IH|].
    apply list_elem_of_singleton in Hin as [= -> <-].
    exists chunk, (pool_queue ps). split; [done|].
    eapply prepare_worker_direct. by rewrite Hpw.
Qed.

End WorkItems.

(** C5: when a call of the closure returns, the list given to
    [reduce] holds at each position [i] a result of the worker on
    the partition of index [i], for every order [schedule] in which
    the work items run: in shared-memory mode it has one entry per
    output file, read in the order of the files, and in direct mode
    one entry per partition, as [map_result.get()] gives them. *)
Theorem results_in_partition_order op schedule data func args w v :
  out_end (closure len picklable PyNone op schedule data func args w)
  = Returns v →
  ∃ chunks wm rm results,
    get_chunks (op_adapter op) (op_nb_workers op) data args = Ok chunks
    ∧ op_get_worker_meta_args op data = Ok wm
    ∧ op_get_reduce_meta_args op data = Ok rm
    ∧ reduce (op_adapter op) results rm = Ok v
    ∧ length results
      = (if op_use_memory_fs op then op_nb_workers op else length chunks)
    ∧ ∀ i r, results !! i = Some r →
        ∃ chunk q, chunks !! i = Some chunk
          ∧ (worker (op_adapter op) chunk i wm
               (wrap (op_progress_bar op) i (period_of (len chunk)) func)
               args (wrap_context q)).1 = Ok r.
Proof.
  unfold closure.
  destruct (get_chunks _ _ _ _) as [chunks|]; [|done].
  destruct (op_get_worker_meta_args op data) as [wm|]; [|done].
  destruct (op_get_reduce_meta_args op data) as [rm|]; [|done].
  destruct (get_workers_args _ _ _ _ _ _ _ _ _ w)
    as [[[[[was cl] ifs] ofs]|] w1] eqn:Hgwa; [|done].
  intros Hend. exists chunks, wm, rm.
  assert (out_end (dispatch picklable PyNone op schedule
                     (was, cl, ifs, ofs) rm w1) = Returns v) as Hd.
  { cbv zeta in Hend.
    destruct (out_end (dispatch _ _ _ _ _ _ _)) eqn:Hd;
      cbn [out_end] in Hend; congruence. }
  clear Hend. unfold dispatch in Hd. case_decide; [done|].
  destruct (get_workers_result _ _ _ _ _ _ _ _ _) as [[e b] w2] eqn:Hgwr.
  cbn [out_end] in Hd. destruct e as [results| |]; [|done..].
  destruct (reduce _ results rm) as [v'|] eqn:Hred; [|done].
  injection Hd as ->. exists results.
  unfold get_workers_result in Hgwr.
  destruct (aggregator_loop _ _ _ _ _ _) as [st rest| |] eqn:Hloop;
    [|done..].
  destruct (map_result_get _ _) as [[results0|]|] eqn:Hget; [|done..].
  split_and!; [done..| |]; destruct (op_use_memory_fs op) eqn:Hshm.
  - destruct (mapM _ ofs) as [vs|] eqn:Hload; [|done].
    injection Hgwr as -> _ _. apply mapM_result_Ok, Forall2_length in Hload.
    apply get_workers_args_shm in Hgwa as (Hlen & _). congruence.
  - injection Hgwr as -> _ _. apply map_result_get_Ok in Hget as [-> _].
    by apply get_workers_args_direct in Hgwa as [-> _].
  - destruct (mapM _ ofs) as [vs|] eqn:Hload; [|done].
    injection Hgwr as -> _ _. apply mapM_result_Ok in Hload.
    apply get_workers_args_shm in Hgwa as (_ & Hnd & Hwas & Hifs & Hofs).
    intros i r Hr.
    destruct (Forall2_lookup_r _ _ _ _ _ Hload Hr) as (fo & Hfo & Hfile).
    assert (files (agg_world st) !! name fo = Some (Some r)) as Hst.
    { unfold load_handle in Hfile.
      by destruct (files (agg_world st) !! name fo) as [[?|]|];
        simplify_eq. }
    erewrite aggregator_loop_world in Hst; [|done|].
    + cbn [aggregator_init agg_world] in Hst.
      eapply map_async_shm; [done..|exact Hst].
    + rewrite fmap_app in Hnd. apply NoDup_app in Hnd as (_ & Hdisj & _).
      intros Hin. apply (Hdisj _ Hin). apply list_elem_of_fmap_2.
      by eapply list_elem_of_lookup_2.
  - injection Hgwr as -> _ _. apply map_result_get_Ok in Hget as [_ Hget].
    apply get_workers_args_direct in Hgwa as [_ Hwas].
    intros i r Hr. eapply map_async_direct; [done|]. by apply Hget.
Qed.

End ResultOrder.

Lemma results_in_partition_order_witness :
  ∃ chunks wm rm results,
    get_chunks Example.series 2
      (Example.OList [Example.OInt 1; Example.OInt 2; Example.OInt 3])
      Example.ONone = Ok chunks
    ∧ Ok Example.ONone = Ok wm
    ∧ Ok Example.ONone = Ok rm
    ∧ reduce Example.series results rm
      = Ok (Example.OList [Example.OInt 1; Example.OInt 4; Example.OInt 9])
    ∧ length results = 2
    ∧ ∀ i r, results !! i = Some r →
        ∃ chunk q, chunks !! i = Some chunk
          ∧ (worker Example.series chunk i wm
               (wrap false i (period_of (Example.obj_len chunk))
                  Example.square)
               Example.ONone (wrap_context q)).1 = Ok r.
Proof.
  apply (results_in_partition_order Example.obj_len Example.obj_picklable
           Example.ONone (Example.series_apply 2 true false) [1; 0]
           (Example.OList [Example.OInt 1; Example.OInt 2; Example.OInt 3])
           Example.square Example.ONone
           {| next_token := 0; files := ∅ |}).
  vm_compute. reflexivity.
Defined.

(** ** Partial application by rewriting *)

Lemma elem_of_sorted_insert {A} before (key : A → nat) x l y :
  y ∈ sorted_insert before key x l ↔ y = x ∨ y ∈ l.
Proof.
  induction l as [|z l IH]; simpl.
  - by rewrite list_elem_of_singleton, elem_of_nil; intuition.
  - destruct (before (key z) (key x)); rewrite !elem_of_cons, ?IH; intuition.
Qed.

Lemma elem_of_sorted {A} reverse (key : A → nat) l y :
  y ∈ sorted reverse key l ↔ y ∈ l.
Proof.
  unfold sorted. induction l as [|x l IH]; simpl; [done|].
  by rewrite elem_of_sorted_insert, IH, elem_of_cons.
Qed.

Lemma tuple_index_elem_of {A} `{EqDecision A} (t : list A) x :
  x ∈ t → ∃ i, tuple_index t x = Ok i.
Proof.
  intros Hx. unfold tuple_index.
  destruct (list_find_elem_of (λ y, y = x) t x Hx eq_refl) as [[i y] ->].
  by exists i.
Qed.

Lemma replace_fast_by_fast_empty bytecode :
  replace_fast_by_fast bytecode [] = Raise (KeyError "b''").
Proof. reflexivity. Qed.

Section RewritingFacts.
Context `{SetOrder}.

Lemma elem_of_tuple_remove_duplicate l v :
  v ∈ tuple_remove_duplicate l ↔ v ∈ l.
Proof.
  unfold tuple_remove_duplicate.
  by rewrite elem_of_sorted, elem_of_values_of_set, elem_of_list_to_set.
Qed.

Lemma names_of_empty_set s : (∀ x, x ∉ s) → names_of_set s = [].
Proof.
  intros Hs. apply elem_of_nil_inv. intros x Hx.
  by apply elem_of_names_of_set, Hs in Hx.
Qed.

(** With every variable of the code object bound, no name is left and
    the second rewriting pass has nothing to substitute. *)
Lemma rewrite_code_all_bound :
  rewrite_code Sample.code_sub
    [("a", VInt 10); ("b", VInt 5); ("c", VInt 1)]
  = Raise (KeyError "b''").
Proof.
  unfold rewrite_code.
  set (nc := tuple_remove_duplicate _).
  destruct (tuple_index_elem_of nc (VInt 10)) as [i1 H1];
    [apply elem_of_tuple_remove_duplicate; set_solver|].
  destruct (tuple_index_elem_of nc (VInt 5)) as [i2 H2];
    [apply elem_of_tuple_remove_duplicate; set_solver|].
  destruct (tuple_index_elem_of nc (VInt 1)) as [i3 H3];
    [apply elem_of_tuple_remove_duplicate; set_solver|].
  rewrite names_of_empty_set by (by intros x [??]%elem_of_difference).
  cbn [mapM]. rewrite H1, H2, H3.
  assert (tuple_index (co_varnames Sample.code_sub) "a" = Ok 0) as ->
    by reflexivity.
  assert (tuple_index (co_varnames Sample.code_sub) "b" = Ok 1) as ->
    by reflexivity.
  assert (tuple_index (co_varnames Sample.code_sub) "c" = Ok 2) as ->
    by reflexivity.
  cbn [mbind result_bind mret result_ret].
  destruct (replace_load_fast_by_load_const _ _) as [bc|e] eqn:Hpass.
  - reflexivity.
  - vm_compute in Hpass. discriminate Hpass.
Qed.

(** Binding every parameter of [def sub(a, b, c): return a - b - c]
    raises [KeyError], in whatever order sets are gone through. *)
Lemma inlined_partial_all_bound name :
  (inlined_partial 0 name [("a", VInt 10); ("b", VInt 5); ("c", VInt 1)]
     {[ 0 := Sample.sub ]}).1
  = Raise (KeyError "b''").
Proof.
  unfold inlined_partial, mbind, io_bind, deref, io_lift.
  rewrite lookup_singleton_eq.
  change (check_names Sample.sub _) with (Ok ()).
  change (__code__ Sample.sub) with Sample.code_sub.
  by rewrite rewrite_code_all_bound.
Qed.

End RewritingFacts.

(** C1, at [def sub(a, b, c): return a - b - c]: with all three
    parameters bound, [inlined_partial] raises [KeyError] and returns
    no function, in whatever order sets are gone through; and with
    [{b: 5}], when the set of the remaining names comes out as
    [(c, a)], the function returned takes its first argument for [c]:
    on [(10, 1)] it returns [1 - 5 - 10], where [sub(10, 5, 1)]
    returns [10 - 5 - 1]. *)
Theorem inlined_partial_not_partial_application :
  (∀ (order : SetOrder) name,
     (@inlined_partial order 0 name
        [("a", VInt 10); ("b", VInt 5); ("c", VInt 1)]
        {[ 0 := Sample.sub ]}).1 = Raise (KeyError "b''"))
  ∧ ∃ g h' new_func,
      (@inlined_partial elements_order 0 (Some "g") [("b", VInt 5)]
         {[ 0 := Sample.sub ]}) = (Ok g, h')
      ∧ h' !! g = Some new_func
      ∧ co_argcount (__code__ new_func) = 2
      ∧ co_varnames (__code__ new_func) = ["c"; "a"]
      ∧ co_code (__code__ new_func)
        = [124; 1; 100; 1; 24; 0; 124; 0; 24; 0; 83; 0]%Z
      ∧ call new_func [VInt 10; VInt 1] 6 = Returned (VInt (-14))
      ∧ call_bound Sample.sub [VInt 10; VInt 1] [("b", VInt 5)] 6
        = Returned (VInt 4).
Proof.
  split; [intros order name; apply inlined_partial_all_bound|].
  eexists _, _, _. split_and!; [vm_compute; reflexivity|..];
    vm_compute; reflexivity.
Qed.

(** * Further properties of the code *)

(** ** Temporary files and their release *)

(** X1: [create_temp_files(n)] gives [n] files whose names differ
    pairwise; each of them exists and is empty afterwards, and every
    other path is as it was. *)
Theorem create_temp_files_fresh {Obj} n (w : world Obj) fs w' :
  create_temp_files n w = (fs, w') →
  length fs = n
  ∧ NoDup (name <$> fs)
  ∧ (∀ f, f ∈ fs → files w' !! name f = Some None)
  ∧ (∀ x, x ∉ name <$> fs → files w' !! x = files w !! x).
Proof.
  intros (Hnames & _ & Hfiles)%create_temp_files_spec. split_and!.
  - apply (f_equal length) in Hnames.
    by rewrite !length_fmap, length_seq in Hnames.
  - rewrite Hnames.
    apply (@NoDup_fmap_2 _ _ _ (temp_name_inj _ _ _)), NoDup_seq.
  - intros f Hf. rewrite Hfiles, decide_True; [done|].
    by apply list_elem_of_fmap_2.
  - intros x Hx. by rewrite Hfiles, decide_False.
Qed.

Lemma create_temp_files_fresh_witness :
  length (create_temp_files 2 (@empty_world ())).1 = 2
  ∧ NoDup (name <$> (create_temp_files 2 (@empty_world ())).1)
  ∧ (∀ f, f ∈ (create_temp_files 2 (@empty_world ())).1 →
       files (create_temp_files 2 (@empty_world ())).2 !! name f
       = Some None)
  ∧ (∀ x, x ∉ name <$> (create_temp_files 2 (@empty_world ())).1 →
       files (create_temp_files 2 (@empty_world ())).2 !! x
       = files (@empty_world ()) !! x).
Proof.
  apply (create_temp_files_fresh 2 (@empty_world ())).
  vm_compute. reflexivity.
Defined.

Section ClosureFacts.
Context {Obj : Type}.
Context (len : Obj → nat) (picklable : Obj → bool) (PyNone : Obj).

(** X2: when the work items could be built and the call ends, by a
    value or by an exception, none of the temporary files it created
    is left. *)
Theorem closure_releases_temp_files (op : parallel_op Obj) schedule data
    func args w chunks wm rm p w1 :
  get_chunks (op_adapter op) (op_nb_workers op) data args = Ok chunks →
  op_get_worker_meta_args op data = Ok wm →
  op_get_reduce_meta_args op data = Ok rm →
  get_workers_args len picklable (op_use_memory_fs op) (op_nb_workers op)
    (op_progress_bar op) chunks wm func args w = (Ok p, w1) →
  out_end (closure len picklable PyNone op schedule data func args w)
  ≠ Blocks →
  ∀ f, f ∈ p.1.2 ++ p.2 →
    files (out_world (closure len picklable PyNone op schedule data func
                        args w)) !! name f = None.
Proof.
  intros Hchunks Hwm Hrm Hgwa. unfold closure.
  rewrite Hchunks, Hwm, Hrm, Hgwa. cbv zeta.
  destruct (out_end (dispatch _ _ _ _ _ _ _)) eqn:Hend;
    cbn [out_end out_world]; intros Hnb; [| |done];
    intros f Hf; unfold release.
  all: destruct (op_use_memory_fs op) eqn:Hshm.
  all: try (rewrite close_all_lookup, decide_True;
            [done|by apply list_elem_of_fmap_2]).
  all: exfalso; unfold get_workers_args in Hgwa;
    destruct (imap _ chunks); [done|];
    injection Hgwa as <- _; by apply elem_of_nil in Hf.
Qed.

(** X3: a call returns a value only if no work item that ran raised:
    the failure of one item is never lost. *)
Theorem closure_returns_only_without_failure (op : parallel_op Obj) schedule
    data func args w chunks wm rm was cl ifs ofs w1 v :
  get_chunks (op_adapter op) (op_nb_workers op) data args = Ok chunks →
  op_get_worker_meta_args op data = Ok wm →
  op_get_reduce_meta_args op data = Ok rm →
  get_workers_args len picklable (op_use_memory_fs op) (op_nb_workers op)
    (op_progress_bar op) chunks wm func args w
  = (Ok (was, cl, ifs, ofs), w1) →
  out_end (closure len picklable PyNone op schedule data func args w)
  = Returns v →
  ∀ i r,
    (i, r) ∈ pool_outcomes (map_async picklable PyNone (op_use_memory_fs op)
                              (worker (op_adapter op)) was schedule w1) →
    ∃ res, r = Ok res.
Proof.
  intros Hchunks Hwm Hrm Hgwa. unfold closure.
  rewrite Hchunks, Hwm, Hrm, Hgwa. cbv zeta. intros Hend.
  assert (out_end (dispatch picklable PyNone op schedule
                     (was, cl, ifs, ofs) rm w1) = Returns v) as Hd.
  { destruct (out_end (dispatch _ _ _ _ _ _ _)) eqn:Hd;
      cbn [out_end] in Hend; congruence. }
  clear Hend. unfold dispatch in Hd. case_decide; [done|].
  destruct (get_workers_result _ _ _ _ _ _ _ _ _) as [[e b] w2] eqn:Hgwr.
  cbn [out_end] in Hd. destruct e as [results| |]; [|done..].
  unfold get_workers_result in Hgwr.
  destruct (aggregator_loop _ _ _ _ _ _) as [st rest| |]; [|done..].
  destruct (map_result_get _ _) as [[results0|]|] eqn:Hget; [|done..].
  unfold map_result_get in Hget.
  apply bind_Some in Hget as (rs & _ & Hget).
  destruct (first_failure _) eqn:Hff; [done|].
  intros i r Hin. by eapply first_failure_None.
Qed.

End ClosureFacts.

Lemma closure_releases_temp_files_witness :
  files (out_world
           (closure Example.obj_len Example.obj_picklable Example.ONone
              (Example.series_apply 2 true false) [1; 0]
              (Example.OList [Example.OInt 1; Example.OInt 2; Example.OInt 3])
              Example.fails_on_7 Example.ONone empty_world))
    !! "/dev/shm/pandarallel_input_3.pickle" = None.
Proof.
  eapply (closure_releases_temp_files Example.obj_len Example.obj_picklable
            Example.ONone (Example.series_apply 2 true false) [1; 0]
            (Example.OList [Example.OInt 1; Example.OInt 2; Example.OInt 3])
            Example.fails_on_7 Example.ONone empty_world)
    with (f := {| name := "/dev/shm/pandarallel_input_3.pickle" |}).
  - vm_compute. reflexivity.
  - vm_compute. reflexivity.
  - vm_compute. reflexivity.
  - vm_compute. reflexivity.
  - vm_compute. discriminate.
  - apply list_elem_of_In. vm_compute. auto 10.
Defined.

Lemma closure_returns_only_without_failure_witness :
  ∃ res, Ok (Example.OList [Example.OInt 9]) = Ok res.
Proof.
  eapply (closure_returns_only_without_failure Example.obj_len
            Example.obj_picklable Example.ONone
            (Example.series_apply 2 false false) [1; 0]
            (Example.OList [Example.OInt 1; Example.OInt 2; Example.OInt 3])
            Example.square Example.ONone empty_world)
    with (i := 1).
  - vm_compute. reflexivity.
  - vm_compute. reflexivity.
  - vm_compute. reflexivity.
  - vm_compute. reflexivity.
  - vm_compute. reflexivity.
  - apply list_elem_of_In. vm_compute. auto 10.
Defined.

(** ** Work items and progress messages *)

Section WorkerFacts.
Context {Obj : Type}.
Context (picklable : Obj → bool) (PyNone : Obj).
Context (function : Obj → nat → Obj → callable Obj → Obj → io context Obj).


End WorkerFacts.

Section TickFacts.
Context {Obj : Type}.



End TickFacts.


(** ** The instrumentor *)

Lemma sorted_insert_Permutation {A} before (key : A → nat) x l :
  sorted_insert before key x l ≡ₚ x :: l.
Proof.
  induction l as [|y l IH]; simpl; [done|].
  destruct (before (key y) (key x)); [|done].
  by rewrite IH, Permutation_swap.
Qed.

Lemma sorted_Permutation {A} reverse (key : A → nat) l :
  sorted reverse key l ≡ₚ l.
Proof.
  unfold sorted. induction l as [|x l IH]; simpl; [done|].
  by rewrite sorted_insert_Permutation, IH.
Qed.





Section FirstIndex.
Context {A : Type} `{EqDecision A}.
Implicit Types (l cs vs : list A).

(** The key [tuple_.index] of [tuple_remove_duplicate]. *)
Local Abbreviation key_of l v :=
  (match tuple_index l v with Ok i => i | Raise _ => 0 end).






End FirstIndex.

Section RemoveDuplicate.
Context `{SetOrder}.




End RemoveDuplicate.




(** ** The rewriting passes *)

Section DictFacts.
Context {K V : Type} `{EqDecision K}.
Implicit Types (d : list (K * V)).

Lemma dict_set_Forall (P : K * V → Prop) d k v :
  Forall P d → P (k, v) → Forall P (dict_set d k v).
Proof.
  induction 1 as [|[k' v'] d Hkv Hd IH]; intros Hnew; simpl.
  - by repeat constructor.
  - case_decide; constructor; auto.
Qed.

Lemma dict_of_Forall (P : K * V → Prop) (items : list (K * V)) :
  Forall P items → Forall P (dict_of items).
Proof.
  unfold dict_of. intros Hitems.
  cut (∀ d, Forall P d →
         Forall P (foldl (λ d kv, dict_set d kv.1 kv.2) d items)).
  { intros Hcut. apply Hcut. constructor. }
  induction Hitems as [|[k v] items Hkv _ IH]; intros d Hd; simpl; [done|].
  apply IH. by apply dict_set_Forall.
Qed.

Lemma dict_get_Some d k v : dict_get d k = Some v → (k, v) ∈ d.
Proof.
  induction d as [|[k' v'] d IH]; simpl; [done|].
  case_decide as Hk; [intros [= ->]; subst; left|right; auto].
Qed.

Lemma dict_get_is_Some d k : k ∈ d.*1 → is_Some (dict_get d k).
Proof.
  induction d as [|[k' v'] d IH]; simpl; [by intros ?%elem_of_nil|].
  case_decide as Hk; [by eexists|].
  intros [?|?]%elem_of_cons; [done|auto].
Qed.



End DictFacts.

Lemma sorted_nonempty {A} reverse (key : A → nat) l :
  l ≠ [] → sorted reverse key l ≠ [].
Proof.
  intros Hne Hs. apply Hne, Permutation_nil_r.
  by rewrite <- (sorted_Permutation reverse key l), Hs.
Qed.

(** A substitution of two bytes by two bytes. *)
Local Abbreviation two_bytes :=
  (λ kv : list Z * list Z, length kv.1 = 2 ∧ length kv.2 = 2).

Lemma regex_sub_length substrings substitutions :
  (∀ k, k ∈ substrings → k ∈ substitutions.*1) →
  Forall two_bytes substitutions →
  ∀ string skip,
    length (regex_sub substrings substitutions skip string)
    = length string - skip.
Proof.
  intros Hkeys Htwo.
  induction string as [|b string IH]; intros skip; [done|].
  cbn [regex_sub]. destruct skip as [|n]; [|by rewrite IH].
  destruct (list_find _ substrings) as [[j k]|] eqn:Hfind.
  - apply list_find_Some in Hfind as (Hk & Hstart & _).
    apply list_elem_of_lookup_2, Hkeys, dict_get_is_Some in Hk as [v Hv].
    rewrite Hv. change (default [] (Some v)) with v.
    apply dict_get_Some in Hv.
    rewrite Forall_forall in Htwo. destruct (Htwo _ Hv) as [Hlk Hlv].
    simpl in Hlk, Hlv. rewrite length_app, IH, Hlk, Hlv. simpl.
    destruct k as [|a [|a' k]]; try discriminate Hlk.
    destruct string; [|simpl; lia].
    simpl in Hstart. by rewrite andb_false_r in Hstart.
  - simpl. rewrite IH. lia.
Qed.

Lemma replace_length string substitutions out :
  Forall two_bytes substitutions →
  replace string substitutions = Ok out → length out = length string.
Proof.
  intros Htwo. unfold replace.
  destruct (sorted true length substitutions.*1) eqn:Hs; [done|].
  intros [= <-]. rewrite <- Hs, regex_sub_length; [lia| |done].
  intros k. by rewrite elem_of_sorted.
Qed.

(** X8: a rewriting pass that succeeds returns a byte string as long
    as the one it was given: every [LOAD_FAST] or [STORE_FAST]
    instruction is replaced by an instruction of the same size, so the
    offsets of the code, jump targets among them, stay as they are. *)
Theorem rewriting_passes_keep_length bytecode :
  (∀ varname_index2const_index out,
     replace_load_fast_by_load_const bytecode varname_index2const_index
     = Ok out → length out = length bytecode)
  ∧ (∀ varname_index2varname_new_index out,
       replace_fast_by_fast bytecode varname_index2varname_new_index
       = Ok out → length out = length bytecode).
Proof.
  assert (∀ (op1 op2 : Z) (m : list (nat * nat)),
            Forall two_bytes
              (dict_of (map (λ '(a, b), ([op1; c_uint8 a], [op2; c_uint8 b]))
                          m))) as Htwo.
  { intros op1 op2 m. apply dict_of_Forall, Forall_forall.
    intros kv ([a b] & -> & _)%list_elem_of_fmap. by split. }
  split.
  - intros m out. unfold replace_load_fast_by_load_const.
    apply replace_length, Htwo.
  - intros m out. unfold replace_fast_by_fast.
    destruct (replace bytecode _) as [bc|] eqn:Hstore; [|done].
    cbn [mbind result_bind].
    destruct (replace bc _) as [bc'|] eqn:Hload; [|done].
    cbn [mbind result_bind]. intros [= <-].
    apply replace_length in Hstore, Hload; [congruence|apply Htwo..].
Qed.

(** ** Errors of [inlined_partial] *)



Section InlinedPartialErrors.
Context `{SetOrder}.
Implicit Types (h : heap) (f : function).


Lemma check_names_first_unknown f known x rest :
  (∀ y, y ∈ known → y ∈ co_varnames (__code__ f)) →
  x ∉ co_varnames (__code__ f) →
  check_names f (known ++ x :: rest)
  = Raise (KeyError (x +:+ " is not an argument of " +:+ str_function f)).
Proof.
  induction known as [|y known IH]; intros Hknown Hx; simpl.
  - by rewrite decide_False.
  - rewrite decide_True by (apply Hknown; left).
    apply IH; [|done]. intros; apply Hknown; by right.
Qed.





(** X10: the first bound name, in the order of the keyword arguments,
    that is not in [co_varnames] is the one the [KeyError] names; the
    error comes before any rewriting and no function object is
    created. *)
Theorem inlined_partial_first_unknown_name h func name arg_name2value f
    known x rest :
  h !! func = Some f →
  arg_name2value.*1 = known ++ x :: rest →
  (∀ y, y ∈ known → y ∈ co_varnames (__code__ f)) →
  x ∉ co_varnames (__code__ f) →
  inlined_partial func name arg_name2value h
  = (Raise (KeyError (x +:+ " is not an argument of " +:+ str_function f)),
     h).
Proof.
  intros Hf Hkeys Hknown Hx.
  unfold inlined_partial, mbind, io_bind, deref, io_lift.
  by rewrite Hf, Hkeys, check_names_first_unknown.
Qed.

End InlinedPartialErrors.


Lemma inlined_partial_first_unknown_name_witness :
  (@inlined_partial elements_order 0 (Some "g")
     [("a", VInt 1); ("y", VInt 2); ("z", VInt 3)] {[ 0 := Sample.f ]})
  = (Raise (KeyError ("y" +:+ " is not an argument of "
                        +:+ str_function Sample.f)),
     {[ 0 := Sample.f ]}).
Proof.
  apply (@inlined_partial_first_unknown_name elements_order
           {[ 0 := Sample.f ]} 0 (Some "g")
           [("a", VInt 1); ("y", VInt 2); ("z", VInt 3)] Sample.f
           ["a"] "y" ["z"]).
  - reflexivity.
  - reflexivity.
  - intros y ->%list_elem_of_singleton. left.
  - intros [[=]|[[=]|[]%elem_of_nil]%elem_of_cons]%elem_of_cons.
Defined.

(** ** What [inlined_partial] returns *)


Section InlinedPartialResult.
Context `{SetOrder}.
Implicit Types (h : heap) (f : function).



End InlinedPartialResult.


(** ** Initialization *)

Section InitializeModes.
Context {Obj : Type}.
Context (DF_Apply DF_ApplyMap S_Apply S_Map SR DFGB RGB : adapter Obj).
Context (SR_att2value DFGB_get_index : Obj → result Obj).
Context (empty_dict : Obj).

Local Abbreviation init' :=
  (initialize DF_Apply DF_ApplyMap S_Apply S_Map SR DFGB RGB
     SR_att2value DFGB_get_index empty_dict).

(** X12: with [use_memory_fs=None], [initialize] never raises.  When
    [initialize] returns it has set the seven [parallel_*] attributes
    and no other, all with the number of workers given and with one
    transfer mode: the one asked for, or, for [None], shared memory
    exactly when [/dev/shm] exists; and shared memory is chosen only
    where it exists.  It prints two lines when [verbose >= 1] and
    nothing otherwise. *)
Theorem initialize_modes sys nb_workers progress_bar verbose :
  (∃ printed reg,
     init' sys nb_workers progress_bar verbose None = Ok (printed, reg))
  ∧ ∀ use_memory_fs printed reg,
      init' sys nb_workers progress_bar verbose use_memory_fs
      = Ok (printed, reg) →
      length printed = (if decide (1 ≤ verbose)%Z then 2 else 0)
      ∧ (∀ name, is_Some (reg !! name) ↔
           name ∈ ["DataFrame.parallel_apply"; "DataFrame.parallel_applymap";
                   "Series.parallel_apply"; "Series.parallel_map";
                   "Rolling.parallel_apply";
                   "DataFrameGroupBy.parallel_apply";
                   "RollingGroupby.parallel_apply"])
      ∧ ∀ name op, reg !! name = Some op →
          op_nb_workers op = nb_workers
          ∧ op_use_memory_fs op
            = default (is_memory_fs_available sys) use_memory_fs
          ∧ (op_use_memory_fs op = true →
             is_memory_fs_available sys = true).
Proof.
  split.
  - unfold initialize. rewrite andb_negb_r. by eexists _, _.
  - intros use printed reg. unfold initialize.
    destruct (_ && _) eqn:Hmode; [done|]. intros [= <- <-]. split_and!.
    + by case_decide.
    + intros name. rewrite !elem_of_cons, elem_of_nil.
      repeat (rewrite lookup_insert; case_decide;
              [subst; split; [tauto|by eexists]|]).
      rewrite lookup_empty. split; [by intros [? [=]]|].
      intros Hname. exfalso. intuition congruence.
    + intros name op Hop.
      assert (op_nb_workers op = nb_workers
              ∧ op_use_memory_fs op
                = match use with
                  | Some true => true
                  | Some false => false
                  | None => is_memory_fs_available sys
                  end) as [Hnb Hshm].
      { repeat (rewrite lookup_insert in Hop; case_decide;
                [injection Hop as <-; by split|]).
        by rewrite lookup_empty in Hop. }
      split_and!; [done|by destruct use as [[]|]|].
      rewrite Hshm. intros Htrue. rewrite Htrue in Hmode.
      by destruct (is_memory_fs_available sys).
Qed.

End InitializeModes.

(** ** Calls that end *)


Section AggregatorProgress.
Context {Obj : Type}.
Implicit Types (st : @aggregator Obj) (m : message).



End AggregatorProgress.


Section PoolProgress.
Context {Obj : Type}.
Context (picklable : Obj → bool) (PyNone : Obj).
Context (function : Obj → nat → Obj → callable Obj → Obj → io context Obj).
Context (pb : bool) (wm : Obj) (func : callable Obj) (args : Obj).

(** The worker leaves on the queue what it finds there. *)
Hypothesis function_appends : ∀ data i period c,
  ∃ sent,
    pandarallel_queue (function data i wm (wrap pb i period func) args c).2
    = pandarallel_queue c ++ sent.


Context (use_memory_fs : bool) (was : list (@worker_args Obj)).

Hypothesis was_items : ∀ i wa, was !! i = Some wa →
  (use_memory_fs = true
   ∧ ∃ pin pout period,
       wa = ShmArgs pin pout i wm (wrap pb i period func) args)
  ∨ (use_memory_fs = false
     ∧ ∃ data period,
         wa = DirectArgs data i wm (wrap pb i period func) args).



End PoolProgress.

Section ClosureEnds.
Context {Obj : Type}.
Context (len : Obj → nat) (picklable : Obj → bool) (PyNone : Obj).

Lemma get_workers_args_length use_memory_fs nb pb chunks wm
    (func : callable Obj) args w was cl ifs ofs w' :
  get_workers_args len picklable use_memory_fs nb pb chunks wm func args w
  = (Ok (was, cl, ifs, ofs), w') →
  length was
  = (if use_memory_fs then nb `min` length chunks else length chunks)
  ∧ length cl = length was
  ∧ length ifs = (if use_memory_fs then nb else 0).
Proof.
  unfold get_workers_args. destruct use_memory_fs.
  - unfold mbind, io_bind, mret, io_ret.
    destruct (create_temp_files nb w) as [ifs0 w1] eqn:Hin.
    destruct (create_temp_files nb w1) as [ofs0 w2] eqn:Hout.
    destruct (io_map _ (zip chunks ifs0) w2) as [[cl0|] w3] eqn:Hdump;
      [|done].
    intros [= <- <- <- <- <-].
    apply create_temp_files_spec in Hin as (Hn1 & _ & _).
    apply create_temp_files_spec in Hout as (Hn2 & _ & _).
    apply io_map_dump in Hdump as (-> & _ & _).
    apply (f_equal length) in Hn1, Hn2.
    rewrite !length_fmap, length_seq in Hn1, Hn2.
    rewrite length_imap, !length_zip, !length_fmap, !length_zip. lia.
  - destruct (imap _ chunks) as [|pr prs] eqn:Hpairs; [done|].
    rewrite <- Hpairs. clear Hpairs. unfold mret, io_ret.
    intros [= <- <- <- <- <-].
    by rewrite !length_fmap, length_imap.
Qed.



End ClosureEnds.

Lemma io_map_quiet {S A B} (f : A → io S B) l :
  (∀ x s, (f x s).2 = s) → ∀ s, (io_map f l s).2 = s.
Proof.
  intros Hf. induction l as [|x l IH]; intros s; cbn [io_map]; [done|].
  unfold mbind, io_bind. specialize (Hf x s).
  destruct (f x s) as [[y|e] s1]; simpl in Hf; subst; [|done].
  specialize (IH s). by destruct (io_map f l s) as [[ys|e] s2].
Qed.

Lemma series_worker_quiet (func : callable Example.obj) :
  (∀ x c, (func x c).2 = c) →
  ∀ chunk i wm args c, (worker Example.series chunk i wm func args c).2 = c.
Proof.
  intros Hf chunk i wm args c. cbn [worker Example.series].
  unfold mbind, io_bind, io_lift.
  destruct (Example.items chunk) as [l|]; [|done].
  pose proof (io_map_quiet func l Hf c) as Hq.
  by destruct (io_map func l c) as [[ys|e] c1].
Qed.


(** ** Calls that never return *)

Lemma all_zero l k : l !! k = Some 0%Z → all l = false.
Proof.
  intros Hk. destruct (all l) eqn:Hall; [|done].
  destruct (all_true_lookup l k Hall) as (z & Hz & Hnz);
    [by eapply lookup_lt_Some|congruence].
Qed.

(** The messages of the engine about work items below [k]. *)
Local Abbreviation engine_message use_memory_fs k m :=
  (∃ i, i < k
        ∧ (use_memory_fs = true ∧ m = (INPUT_FILE_READ, Index i)
           ∨ m = (VALUE, Index i) ∨ m = (ERROR, Index i))).

Section AggregatorWaits.
Context {Obj : Type}.
Implicit Types (st : @aggregator Obj) (m : message).

Lemma handle_engine_message nb cl ifs st m use_memory_fs k :
  length (finished_workers st) = nb → k < nb →
  (use_memory_fs = true → (k ≤ length ifs)%nat) →
  finished_workers st !! k = Some 0%Z →
  engine_message use_memory_fs k m →
  ∃ st', handle_message nb false cl ifs st m = Ok st'
    ∧ length (finished_workers st') = nb
    ∧ finished_workers st' !! k = Some 0%Z.
Proof.
  intros Hlen Hk Hifs Hzero (i & Hi & Hm). unfold handle_message.
  destruct Hm as [[Hshm ->]|[->| ->]].
  - rewrite decide_True by done. specialize (Hifs Hshm).
    destruct (lookup_lt_is_Some_2 ifs i) as [f Hf]; [lia|].
    apply list_getitem_Ok in Hf. rewrite Hf. by eexists.
  - rewrite decide_False by done. rewrite decide_False by done.
    rewrite decide_True by done. unfold list_setitem.
    rewrite decide_True by lia. eexists. split; [reflexivity|].
    cbn [finished_workers]. rewrite length_insert.
    by rewrite list_lookup_insert_ne by lia.
  - rewrite decide_False by done. rewrite decide_False by done.
    rewrite decide_False by done. rewrite decide_True by done.
    unfold list_setitem.
    rewrite decide_True by lia. eexists. split; [reflexivity|].
    cbn [finished_workers]. rewrite length_insert.
    by rewrite list_lookup_insert_ne by lia.
Qed.

(** While a worker is not marked and only messages about other
    workers come, the loop goes on until the queue is empty, and then
    waits. *)
Lemma aggregator_loop_waits nb cl ifs use_memory_fs k queue : ∀ st,
  length (finished_workers st) = nb → k < nb →
  (use_memory_fs = true → (k ≤ length ifs)%nat) →
  finished_workers st !! k = Some 0%Z →
  (∀ m, m ∈ queue → engine_message use_memory_fs k m) →
  ∃ st', aggregator_loop nb false cl ifs queue st = Waiting st'.
Proof.
  induction queue as [|m queue IH]; intros st Hlen Hk Hifs Hzero Hqueue;
    simpl; rewrite (all_zero _ k Hzero); [by eexists|].
  destruct (handle_engine_message nb cl ifs st m use_memory_fs k)
    as (st1 & -> & Hlen1 & Hzero1); [done..|apply Hqueue; left|].
  apply IH; [done..|]. intros m' Hm'. apply Hqueue. by right.
Qed.

End AggregatorWaits.

Section PoolQuiet.
Context {Obj : Type}.
Context (picklable : Obj → bool) (PyNone : Obj).
Context (function : Obj → nat → Obj → callable Obj → Obj → io context Obj).
Context (wm : Obj) (func : callable Obj) (args : Obj).

(** The worker leaves the queue and the counter as they are. *)
Hypothesis function_quiet : ∀ data i c,
  (function data i wm func args c).2 = c.

Lemma prepare_worker_quiet use_memory_fs wa i p :
  (use_memory_fs = true
   ∧ ∃ pin pout, wa = ShmArgs pin pout i wm func args)
  ∨ (use_memory_fs = false
     ∧ ∃ data, wa = DirectArgs data i wm func args) →
  ∃ sent,
    pandarallel_queue (proc_context
      (prepare_worker picklable PyNone use_memory_fs function wa p).2)
    = pandarallel_queue (proc_context p) ++ sent
    ∧ ∀ m, m ∈ sent →
        use_memory_fs = true ∧ m = (INPUT_FILE_READ, Index i)
        ∨ m = (VALUE, Index i) ∨ m = (ERROR, Index i).
Proof.
  intros [[-> (pin & pout & ->)]|[-> (data & ->)]];
    cbn [prepare_worker];
    unfold on_exception, mbind, io_bind, load_path, in_context, queue_put,
      io_modify, dump_path, set_proc_world, mret, io_ret.
  - destruct (files (proc_world p) !! pin) as [[data|]|]; cbn.
    + match goal with
      | |- context [function data i wm func args ?c] =>
          pose proof (function_quiet data i c) as Hq;
          destruct (function data i wm func args c) as [[res|e] c'] eqn:Hf
      end; cbn in Hq |- *; subst c'; cbn.
      * destruct (picklable res); cbn; rewrite <- !app_assoc;
          eexists; (split; [reflexivity|]);
          intros m [->|[->|[]%elem_of_nil]%elem_of_cons]%elem_of_cons; auto.
      * rewrite <- !app_assoc. eexists. split; [reflexivity|].
        intros m [->|[->|[]%elem_of_nil]%elem_of_cons]%elem_of_cons; auto.
    + eexists. split; [reflexivity|].
      intros m ->%list_elem_of_singleton. auto.
    + eexists. split; [reflexivity|].
      intros m ->%list_elem_of_singleton. auto.
  - match goal with
    | |- context [function data i wm func args ?c] =>
        pose proof (function_quiet data i c) as Hq;
        destruct (function data i wm func args c) as [[res|e] c'] eqn:Hf
    end; cbn in Hq |- *; subst c'; cbn;
      (eexists; split; [reflexivity|]);
      intros m ->%list_elem_of_singleton; auto.
Qed.

Context (use_memory_fs : bool) (was : list (@worker_args Obj)).

Hypothesis was_items : ∀ i wa, was !! i = Some wa →
  (use_memory_fs = true
   ∧ ∃ pin pout, wa = ShmArgs pin pout i wm func args)
  ∨ (use_memory_fs = false
     ∧ ∃ data, wa = DirectArgs data i wm func args).

(** The queue holds only the messages of the work items there are. *)
Lemma map_async_quiet w schedule :
  ∀ m, m ∈ pool_queue (map_async picklable PyNone use_memory_fs function
                         was schedule w) →
    engine_message use_memory_fs (length was) m.
Proof.
  unfold map_async.
  apply (foldl_preserves (λ ps, ∀ m, m ∈ pool_queue ps →
                            engine_message use_memory_fs (length was) m)).
  - by intros m ?%elem_of_nil.
  - intros ps i IH. unfold run_item.
    destruct (was !! i) as [wa|] eqn:Hwa; [|done].
    destruct (prepare_worker_quiet use_memory_fs wa i
                {| proc_world := pool_world ps;
                   proc_context := wrap_context (pool_queue ps) |}
                (was_items i wa Hwa)) as (sent & Hq & Hsent).
    destruct (prepare_worker _ _ _ _ _ _) as [r p].
    cbn in Hq |- *. rewrite Hq.
    intros m [Hm|Hm]%elem_of_app; [by apply IH|].
    exists i. split; [by eapply lookup_lt_Some|by apply Hsent].
Qed.

End PoolQuiet.

Section ClosureBlocks.
Context {Obj : Type}.
Context (len : Obj → nat) (picklable : Obj → bool) (PyNone : Obj).

(** X14: without a progress bar and with a worker that leaves the
    queue alone, a call whose data gives fewer partitions than
    [nb_workers] never returns: the loop of [get_workers_result] waits
    for a [VALUE] or [ERROR] message of every one of the [nb_workers]
    workers, and a worker without a partition sends none. *)
Theorem closure_blocks_on_few_partitions (op : parallel_op Obj) schedule
    data func args w chunks wm rm p w1 :
  get_chunks (op_adapter op) (op_nb_workers op) data args = Ok chunks →
  op_get_worker_meta_args op data = Ok wm →
  op_get_reduce_meta_args op data = Ok rm →
  get_workers_args len picklable (op_use_memory_fs op) (op_nb_workers op)
    (op_progress_bar op) chunks wm func args w = (Ok p, w1) →
  length chunks < op_nb_workers op →
  op_progress_bar op = false →
  (∀ chunk i c, (worker (op_adapter op) chunk i wm func args c).2 = c) →
  out_end (closure len picklable PyNone op schedule data func args w)
  = Blocks.
Proof.
  intros Hchunks Hwm Hrm Hgwa Hfew Hpb Hquiet. unfold closure.
  rewrite Hchunks, Hwm, Hrm, Hgwa. cbv zeta.
  assert (out_end (dispatch picklable PyNone op schedule p rm w1) = Blocks)
    as Hd; [|by rewrite Hd].
  destruct p as [[[was cl] ifs] ofs]. unfold dispatch.
  case_decide; [lia|]. rewrite Hpb in Hgwa |- *.
  pose proof (get_workers_args_length _ _ _ _ _ _ _ _ _ _ _ _ _ _ _ Hgwa)
    as (Hlen & _ & Hifs).
  assert (∀ i wa, was !! i = Some wa →
            (op_use_memory_fs op = true
             ∧ ∃ pin pout, wa = ShmArgs pin pout i wm func args)
            ∨ (op_use_memory_fs op = false
               ∧ ∃ chunk, wa = DirectArgs chunk i wm func args)) as Hwas.
  { destruct (op_use_memory_fs op) eqn:Hshm; intros i wa Hwa.
    - left. split; [done|].
      apply get_workers_args_shm in Hgwa as (_ & _ & Hitems & _).
      destruct (Hitems i wa Hwa) as (fi & fo & chunk & _ & _ & _ & ->).
      by eexists _, _.
    - right. split; [done|].
      apply get_workers_args_direct in Hgwa as [_ Hitems].
      destruct (Hitems i wa Hwa) as (chunk & _ & ->). by eexists. }
  pose proof (map_async_quiet picklable PyNone (worker (op_adapter op))
                wm func args Hquiet (op_use_memory_fs op) was Hwas w1
                schedule) as Hqueue.
  set (ps := map_async _ _ _ _ _ _ _) in *.
  unfold get_workers_result.
  destruct (aggregator_loop_waits (op_nb_workers op) cl ifs
              (op_use_memory_fs op) (length was) (pool_queue ps)
              (aggregator_init (op_nb_workers op) false cl (pool_world ps)))
    as [st' ->]; [..|done].
  - cbn. by rewrite length_replicate.
  - destruct (op_use_memory_fs op); lia.
  - intros Hshm. rewrite Hshm in Hlen, Hifs. lia.
  - cbn. apply lookup_replicate_2. destruct (op_use_memory_fs op); lia.
  - done.
Qed.

End ClosureBlocks.

Lemma closure_blocks_on_few_partitions_witness :
  out_end (closure Example.obj_len Example.obj_picklable Example.ONone
             (parallelize 3 true false per_element
                (λ _, Ok Example.ONone) (λ _, Ok Example.ONone))
             [0; 1; 2]
             (Example.OList [Example.OInt 1; Example.OInt 2])
             Example.square Example.ONone empty_world)
  = Blocks.
Proof.
  eapply (closure_blocks_on_few_partitions Example.obj_len
            Example.obj_picklable Example.ONone
            (parallelize 3 true false per_element
               (λ _, Ok Example.ONone) (λ _, Ok Example.ONone))
            [0; 1; 2]
            (Example.OList [Example.OInt 1; Example.OInt 2])
            Example.square Example.ONone empty_world).
  - vm_compute. reflexivity.
  - reflexivity.
  - reflexivity.
  - vm_compute. reflexivity.
  - simpl. lia.
  - reflexivity.
  - intros chunk i c. by apply series_worker_quiet.
Defined.

(** ** What a pass does to the instructions *)

Lemma dict_get_None {K V} `{EqDecision K} (d : list (K * V)) k :
  k ∉ d.*1 → dict_get d k = None.
Proof.
  induction d as [|[k' v'] d IH]; simpl; [done|].
  intros [Hne Hk]%not_elem_of_cons. rewrite decide_False by done. auto.
Qed.

Section ReplaceInstructions.
Context (opcode : Z) (substitutions : list (list Z * list Z)).
Context (substrings : list (list Z)).

Hypothesis substrings_keys : ∀ k, k ∈ substrings ↔ k ∈ substitutions.*1.
Hypothesis keys_shape : ∀ k, k ∈ substrings → ∃ a, k = [opcode; a].

Lemma find_key_aligned op arg rest :
  list_find (λ k, starts_with k (op :: arg :: rest) = true) substrings
  = None ∧ (op ≠ opcode ∨ [opcode; arg] ∉ substrings)
  ∨ ∃ j, list_find (λ k, starts_with k (op :: arg :: rest) = true)
           substrings = Some (j, [opcode; arg])
         ∧ op = opcode ∧ [opcode; arg] ∈ substrings.
Proof.
  destruct (list_find _ substrings) as [[j k]|] eqn:Hfind.
  - right. apply list_find_Some in Hfind as (Hk & Hstart & _).
    apply list_elem_of_lookup_2 in Hk.
    destruct (keys_shape k Hk) as [a ->]. simpl in Hstart.
    apply andb_prop in Hstart as [->%Z.eqb_eq Hstart].
    apply andb_prop in Hstart as [->%Z.eqb_eq _]. by exists j.
  - left. split; [done|].
    apply list_find_None in Hfind. rewrite Forall_forall in Hfind.
    destruct (decide (op = opcode)) as [->|]; [right|by left].
    intros Hin. apply (Hfind _ Hin). simpl. by rewrite !Z.eqb_refl.
Qed.

Lemma find_key_misaligned arg rest :
  arg ≠ opcode →
  list_find (λ k, starts_with k (arg :: rest) = true) substrings = None.
Proof.
  intros Hne. apply list_find_None, Forall_forall. intros k Hk.
  destruct (keys_shape k Hk) as [a ->]. simpl.
  destruct (Z.eqb_spec opcode arg); [congruence|done].
Qed.

Lemma regex_sub_instructions instructions :
  (∀ op arg, (op, arg) ∈ instructions → arg ≠ opcode) →
  regex_sub substrings substitutions 0 (assemble instructions)
  = flat_map (λ '(op, arg),
                if decide (op = opcode)
                then default [op; arg] (dict_get substitutions [op; arg])
                else [op; arg]) instructions.
Proof.
  induction instructions as [|[op arg] instructions IH]; intros Hargs;
    [done|].
  assert (arg ≠ opcode) as Harg by (apply (Hargs op); left).
  assert (regex_sub substrings substitutions 0 (assemble instructions)
          = flat_map (λ '(op, arg),
                        if decide (op = opcode)
                        then default [op; arg]
                               (dict_get substitutions [op; arg])
                        else [op; arg]) instructions) as IH'.
  { apply IH. intros op' arg' Hin. apply (Hargs op'). by right. }
  clear IH. unfold assemble in *.
  cbn [flat_map app]. cbn [regex_sub].
  destruct (find_key_aligned op arg
              (flat_map (λ '(op, arg), [op; arg]) instructions))
    as [[-> Hno]|(j & -> & -> & Hin)].
  - cbn [regex_sub]. rewrite find_key_misaligned by done. rewrite IH'.
    case_decide as Hop; [|done]. subst op.
    destruct Hno as [?|Hno]; [done|].
    rewrite dict_get_None; [done|]. by rewrite <- substrings_keys.
  - rewrite decide_True by done.
    destruct (dict_get_is_Some substitutions [opcode; arg]) as [v Hv];
      [by apply substrings_keys|].
    rewrite Hv. cbn [length Nat.sub default from_option id regex_sub].
    by rewrite IH'.
Qed.

End ReplaceInstructions.

(** X15: on a byte string made of two-byte instructions none of whose
    operands is the byte of [opcode], [replace] with keys that are
    instructions of that [opcode] works instruction by instruction: an
    instruction that is a key is replaced by its substitute and every
    other one is kept.  The condition on the operands is needed: the
    pattern is searched at every offset, so in
    [LOAD_CONST 124; POP_TOP] the key [LOAD_FAST 1] matches the operand
    [124] followed by the opcode [1]. *)
Theorem replace_instructions opcode substitutions instructions :
  substitutions ≠ [] →
  (∀ k, k ∈ substitutions.*1 → ∃ a, k = [opcode; a]) →
  (∀ op arg, (op, arg) ∈ instructions → arg ≠ opcode) →
  replace (assemble instructions) substitutions
  = Ok (flat_map (λ '(op, arg),
                    if decide (op = opcode)
                    then default [op; arg]
                           (dict_get substitutions [op; arg])
                    else [op; arg]) instructions)
  ∧ replace (assemble [(LOAD_CONST, 124%Z); (POP_TOP, 0%Z)])
      [([LOAD_FAST; 1%Z], [LOAD_CONST; 7%Z])]
    = Ok [LOAD_CONST; LOAD_CONST; 7%Z; 0%Z].
Proof.
  intros Hne Hkeys Hargs. split; [|reflexivity].
  unfold replace.
  destruct (sorted true length substitutions.*1) eqn:Hs.
  { apply sorted_nonempty in Hs; [done|]. by destruct substitutions. }
  rewrite <- Hs. f_equal.
  apply regex_sub_instructions; [| |done].
  - intros k. apply elem_of_sorted.
  - intros k Hk%elem_of_sorted. by apply Hkeys.
Qed.

Lemma replace_instructions_witness :
  replace (assemble [(LOAD_FAST, 0); (LOAD_FAST, 1); (BINARY_SUBTRACT, 0);
                     (RETURN_VALUE, 0)]%Z)
    [([LOAD_FAST; 1%Z], [LOAD_CONST; 2%Z])]
  = Ok (flat_map (λ '(op, arg),
                    if decide (op = LOAD_FAST)
                    then default [op; arg]
                           (dict_get [([LOAD_FAST; 1%Z], [LOAD_CONST; 2%Z])]
                              [op; arg])
                    else [op; arg])
          [(LOAD_FAST, 0); (LOAD_FAST, 1); (BINARY_SUBTRACT, 0);
           (RETURN_VALUE, 0)]%Z)
  ∧ replace (assemble [(LOAD_CONST, 124%Z); (POP_TOP, 0%Z)])
      [([LOAD_FAST; 1%Z], [LOAD_CONST; 7%Z])]
    = Ok [LOAD_CONST; LOAD_CONST; 7%Z; 0%Z].
Proof.
  apply (replace_instructions LOAD_FAST
           [([LOAD_FAST; 1%Z], [LOAD_CONST; 2%Z])]).
  - done.
  - intros k ->%list_elem_of_singleton. by exists 1%Z.
  - intros op arg Hin. apply list_elem_of_In in Hin. simpl in Hin.
    destruct Hin as [[= <- <-]|[[= <- <-]|[[= <- <-]|[[= <- <-]|[]]]]];
      done.
Defined.

(** ** Partitions on their way to the workers *)

Section PartitionTransfer.
Context {Obj : Type}.
Context (len : Obj → nat) (picklable : Obj → bool) (PyNone : Obj).

Lemma get_workers_args_chunk_lengths use_memory_fs nb pb chunks wm
    (func : callable Obj) args w was cl ifs ofs w' :
  get_workers_args len picklable use_memory_fs nb pb chunks wm func args w
  = (Ok (was, cl, ifs, ofs), w') →
  ∀ i n, cl !! i = Some n →
    ∃ chunk, chunks !! i = Some chunk ∧ n = len chunk.
Proof.
  unfold get_workers_args. destruct use_memory_fs.
  - unfold mbind, io_bind, mret, io_ret.
    destruct (create_temp_files nb w) as [ifs0 w1].
    destruct (create_temp_files nb w1) as [ofs0 w2].
    destruct (io_map _ (zip chunks ifs0) w2) as [[cl0|] w3] eqn:Hdump;
      [|done].
    intros [= <- <- <- <- <-].
    apply io_map_dump in Hdump as (-> & _ & _).
    intros i n Hn. rewrite list_lookup_fmap in Hn.
    apply fmap_Some in Hn as ([chunk f] & Hz & ->).
    rewrite lookup_zip_with in Hz.
    apply bind_Some in Hz as (c & Hc & Hz).
    apply bind_Some in Hz as (f' & _ & [= -> ->]). by exists chunk.
  - destruct (imap _ chunks) as [|pr prs] eqn:Hpairs; [done|].
    rewrite <- Hpairs. clear Hpairs. unfold mret, io_ret.
    intros [= <- <- <- <- <-] i n Hn.
    rewrite list_lookup_fmap, list_lookup_imap in Hn.
    apply fmap_Some in Hn as (pr' & Hpr & ->).
    apply fmap_Some in Hpr as (chunk & Hchunk & ->). by exists chunk.
Qed.

(** X16: in shared-memory mode work item [i] names an input file from
    which [pickle.load] gives back partition [i] as [get_workers_args]
    pickled it, an output file that is another file, and the function
    instrumented for the length of that partition, which is also
    [chunk_lengths[i]]. *)
Theorem work_items_read_their_partition nb pb chunks wm
    (func : callable Obj) args w was cl ifs ofs w' :
  get_workers_args len picklable true nb pb chunks wm func args w
  = (Ok (was, cl, ifs, ofs), w') →
  ∀ i wa, was !! i = Some wa →
    ∃ pin pout chunk,
      wa = ShmArgs pin pout i wm (wrap pb i (period_of (len chunk)) func)
             args
      ∧ chunks !! i = Some chunk
      ∧ cl !! i = Some (len chunk)
      ∧ pin ≠ pout
      ∧ ∀ c, load_path pin {| proc_world := w'; proc_context := c |}
             = (Ok chunk, {| proc_world := w'; proc_context := c |}).
Proof.
  intros Hgwa i wa Hwa.
  pose proof (get_workers_args_length _ _ _ _ _ _ _ _ _ _ _ _ _ _ _ Hgwa)
    as (_ & Hlen & _).
  pose proof (get_workers_args_chunk_lengths _ _ _ _ _ _ _ _ _ _ _ _ _
                Hgwa i) as Hcl.
  apply get_workers_args_shm in Hgwa as (_ & Hnd & Hitems & Hfiles & _).
  destruct (Hitems i wa Hwa) as (fi & fo & chunk & Hfi & Hfo & Hchunk & ->).
  exists (name fi), (name fo), chunk. split_and!; [done..| | |].
  - destruct (lookup_lt_is_Some_2 cl i) as [n Hn].
    { rewrite Hlen. by eapply lookup_lt_Some. }
    destruct (Hcl n Hn) as (chunk' & Hchunk' & ->). congruence.
  - rewrite fmap_app in Hnd. apply NoDup_app in Hnd as (_ & Hdisj & _).
    intros Heq. apply (Hdisj (name fi)).
    + apply list_elem_of_fmap_2. by eapply list_elem_of_lookup_2.
    + rewrite Heq. apply list_elem_of_fmap_2.
      by eapply list_elem_of_lookup_2.
  - intros c. unfold load_path. cbn [proc_world].
    by rewrite (Hfiles i fi chunk Hfi Hchunk).
Qed.

(** *** Direct mode and the files *)

Lemma handle_message_no_files nb show cl (st : @aggregator Obj) m st' :
  handle_message nb show cl [] st m = Ok st' →
  agg_world st' = agg_world st.
Proof.
  destruct m as [ty msg]. unfold handle_message.
  repeat case_decide; subst; intros Hm; destruct msg; try discriminate;
    result_cases;
    repeat match goal with
    | H : (if ?b then _ else _) = Ok _ |- _ => destruct b
    end; result_cases; subst; done.
Qed.

Lemma aggregator_loop_no_files nb show cl queue : ∀ (st : @aggregator Obj),
  match aggregator_loop nb show cl [] queue st with
  | Finished st' _ | Failed _ st' | Waiting st' =>
      agg_world st' = agg_world st
  end.
Proof.
  induction queue as [|m queue IH]; intros st; simpl;
    destruct (all (finished_workers st)); try done.
  destruct (handle_message _ _ _ _ st m) as [st1|] eqn:Hm; [|done].
  apply handle_message_no_files in Hm. specialize (IH st1).
  destruct (aggregator_loop _ _ _ _ _ st1); congruence.
Qed.

Lemma map_async_direct_world
    (function : Obj → nat → Obj → callable Obj → Obj → io context Obj)
    was schedule w :
  pool_world (map_async picklable PyNone false function was schedule w) = w.
Proof.
  unfold map_async.
  apply (foldl_preserves (λ ps, pool_world ps = w)); [done|].
  intros ps i Hps. unfold run_item.
  destruct (was !! i) as [wa|]; [|done].
  destruct wa as [pin pout j wm df args|data j wm df args];
    cbn [prepare_worker]; [done|].
  unfold on_exception, mbind, io_bind, in_context, queue_put, io_modify,
    mret, io_ret.
  by destruct (function data j wm df args _) as [[res|e] c].
Qed.

(** X17: in direct mode a call creates no file and leaves every file
    as it is, however it ends. *)
Theorem closure_direct_leaves_files (op : parallel_op Obj) schedule data
    func args w :
  op_use_memory_fs op = false →
  out_world (closure len picklable PyNone op schedule data func args w) = w.
Proof.
  intros Hshm. unfold closure.
  destruct (get_chunks _ _ _ _) as [chunks|]; [|done].
  destruct (op_get_worker_meta_args op data) as [wm|]; [|done].
  destruct (op_get_reduce_meta_args op data) as [rm|]; [|done].
  rewrite Hshm. unfold get_workers_args.
  destruct (imap _ chunks) as [|pr prs]; [done|].
  unfold mret, io_ret. cbv zeta. unfold release.
  assert (out_world (dispatch picklable PyNone op schedule
                       (((pr :: prs).*1, (pr :: prs).*2, [], [])) rm w) = w)
    as Hd; [|by destruct (out_end (dispatch _ _ _ _ _ _ _))].
  unfold dispatch. case_decide; [done|]. rewrite Hshm.
  rewrite map_async_direct_world. unfold get_workers_result.
  pose proof (aggregator_loop_no_files (op_nb_workers op)
                (op_progress_bar op) (pr :: prs).*2
                (pool_queue (map_async picklable PyNone false
                               (worker (op_adapter op)) (pr :: prs).*1
                               schedule w))
                (aggregator_init (op_nb_workers op) (op_progress_bar op)
                   (pr :: prs).*2 w)) as Hloop.
  destruct (aggregator_loop _ _ _ _ _ _) as [st rest|e st|st];
    cbn [aggregator_init agg_world] in Hloop; [|done..].
  by destruct (map_result_get _ _) as [[results|e]|].
Qed.

End PartitionTransfer.

Lemma work_items_read_their_partition_witness :
  ∃ pin pout chunk,
    ShmArgs "/dev/shm/pandarallel_input_1.pickle"
      "/dev/shm/pandarallel_input_3.pickle" 1 Example.ONone
      (wrap false 1 (period_of 1) Example.square) Example.ONone
    = ShmArgs pin pout 1 Example.ONone
        (wrap false 1 (period_of (Example.obj_len chunk)) Example.square)
        Example.ONone
    ∧ Example.slices 2
        [Example.OInt 1; Example.OInt 2; Example.OInt 3] !! 1 = Some chunk
    ∧ pin ≠ pout.
Proof.
  destruct (work_items_read_their_partition Example.obj_len
              Example.obj_picklable 2 false
              (Example.slices 2
                 [Example.OInt 1; Example.OInt 2; Example.OInt 3])
              Example.ONone Example.square Example.ONone empty_world
              _ _ _ _ _ eq_refl 1 _ eq_refl)
    as (pin & pout & chunk & Hwa & Hchunk & _ & Hne & _).
  by exists pin, pout, chunk.
Defined.

Lemma closure_direct_leaves_files_witness :
  out_world (closure Example.obj_len Example.obj_picklable Example.ONone
               (Example.series_apply 2 false true) [1; 0]
               (Example.OList [Example.OInt 1; Example.OInt 2])
               Example.fails_on_7 Example.ONone empty_world)
  = empty_world.
Proof.
  by apply (closure_direct_leaves_files Example.obj_len
              Example.obj_picklable Example.ONone
              (Example.series_apply 2 false true)).
Defined.
